(** * INA219 current/voltage sensor driver (INA219.cpp)

    A shallow embedding of the driver of the USB tester firmware: the two
    bus primitives [wireWriteRegister] and [wireReadRegister], the three
    calibration presets, the constructor, [begin] and the measurement
    accessors, followed by the properties that its specification states
    about them.

    The driver talks to the global [Wire] object of the Arduino core.  The
    core is not part of the repository; it is represented by a mock bus
    (section "The Wire object") that keeps a register store per slave
    address and a log of the frames the driver handed over.

    The header INA219.h is not available.  What the driver takes from it
    (register addresses and configuration bit masks) is a parameter of the
    development, the record [INA219_h].  Nothing is assumed about these
    macros; where the driver converts them to [uint8_t] or [uint16_t] the
    conversion is written out.

    Integers are in [Z] with the wrap-around of each C type written out.
    [float] and [double] are IEEE 754 binary formats with the operations
    of [SpecFloat] (round to nearest, ties to even). *)

From Stdlib Require Import ZArith List Bool Lia QArith Qround.
From Stdlib Require Import Floats.SpecFloat.
From stdpp Require Import base option gmap.
Import ListNotations.

Local Open Scope Z_scope.

(* ===================================================================== *)
(** * Fixed-width integers *)
(* ===================================================================== *)

(** Conversion to [uint8_t], [uint16_t] and [int16_t]: reduction modulo
    the width, the signed one re-centred around zero. *)
Definition to_uint8 (x : Z) : Z := x mod 2 ^ 8.
Definition to_uint16 (x : Z) : Z := x mod 2 ^ 16.
Definition to_int16 (x : Z) : Z := (x + 2 ^ 15) mod 2 ^ 16 - 2 ^ 15.

(** The firmware is built for an Arduino board.  Two data models exist
    there: the 8-bit AVR one ([int] has 16 bits, [double] is the 32-bit
    [float]) and the one of the 32-bit cores ([int] has 32 bits, [double]
    has 64 bits). *)
Inductive abi : Type := AVR | ILP32.

Definition int_bits (t : abi) : Z :=
  match t with AVR => 16 | ILP32 => 32 end.

(** Wrap-around of [int] and [unsigned int] arithmetic. *)
Definition to_int (t : abi) (x : Z) : Z :=
  (x + 2 ^ (int_bits t - 1)) mod 2 ^ int_bits t - 2 ^ (int_bits t - 1).
Definition to_uint (t : abi) (x : Z) : Z := x mod 2 ^ int_bits t.

(** Arithmetic on a [uint16_t] operand is carried out after integer
    promotion: [uint16_t] is [unsigned int] itself on AVR and is promoted
    to [int] where [int] has 32 bits. *)
Definition promoted (t : abi) (x : Z) : Z :=
  match t with AVR => to_uint t x | ILP32 => to_int t x end.

(* ===================================================================== *)
(** * Floating point *)
(* ===================================================================== *)

(** IEEE 754 binary formats, round to nearest even, as specified by
    [SpecFloat]. *)
Record fformat : Type := { prec : Z; emax : Z }.

Definition binary32 : fformat := {| prec := 24; emax := 128 |}.
Definition binary64 : fformat := {| prec := 53; emax := 1024 |}.

Definition float_fmt (t : abi) : fformat := binary32.
Definition double_fmt (t : abi) : fformat :=
  match t with AVR => binary32 | ILP32 => binary64 end.

(** Integer to floating point. *)
Definition float_of_Z (f : fformat) (z : Z) : spec_float :=
  binary_normalize (prec f) (emax f) z 0 false.

Definition fformat_eqb (f g : fformat) : bool :=
  (prec f =? prec g) && (emax f =? emax g).

(** Conversion from one format to another (here only used to widen);
    nothing happens when the two types are the same. *)
Definition float_convert (src dst : fformat) (x : spec_float) : spec_float :=
  if fformat_eqb src dst then x
  else
    match x with
    | S754_finite s m e => binary_round (prec dst) (emax dst) s m e
    | _ => x
    end.

(** The literal [0.5]. *)
Definition one_half (f : fformat) : spec_float :=
  binary_normalize (prec f) (emax f) 1 (-1) false.

Definition float_is_zero (x : spec_float) : bool :=
  match x with S754_zero _ => true | _ => false end.

(** Integer part of a finite value, rounded toward zero. *)
Definition float_trunc (x : spec_float) : option Z :=
  match x with
  | S754_zero _ => Some 0
  | S754_finite s m e => Some (cond_Zopp s (Z.shiftl (Z.pos m) e))
  | S754_infinity _ | S754_nan => None
  end.

(* ===================================================================== *)
(** * Outcomes *)
(* ===================================================================== *)

(** The two ways in which an expression of the driver can leave defined
    behaviour: a division whose second operand is zero, and a conversion
    from floating point to [int16_t] of a value that [int16_t] cannot
    hold.  Both are guarded here and end the computation. *)
Inductive fault : Type := DivideByZero | ConversionOverflow.

Inductive result (A : Type) : Type :=
  | Ok (a : A)
  | Undefined (f : fault).
Arguments Ok {A} a.
Arguments Undefined {A} f.

Definition fdiv (f : fformat) (x y : spec_float) : result spec_float :=
  if float_is_zero y then Undefined DivideByZero
  else Ok (SFdiv (prec f) (emax f) x y).

Definition float_to_int16 (x : spec_float) : result Z :=
  match float_trunc x with
  | Some z =>
      if (- 2 ^ 15 <=? z) && (z <? 2 ^ 15) then Ok z
      else Undefined ConversionOverflow
  | None => Undefined ConversionOverflow
  end.

(* ===================================================================== *)
(** * The Wire object *)
(* ===================================================================== *)

(** The bus is the mock register store of the specification: a slave per
    address that follows the register protocol of the INA219.  The first
    byte of a frame selects a register, two more bytes are recorded in it
    (most significant byte first), a read returns the two bytes of the
    selected register; a register never written reads as zero. *)
Record chip : Type := { pointer : Z; registers : gmap Z (Z * Z) }.

(** What the driver handed to the bus. *)
Inductive transfer : Type :=
  | Sent (address : Z) (bytes : list Z)
  | Requested (address : Z) (quantity : Z).

Record TwoWire : Type := {
  begun : bool;
  txAddress : Z;
  txBuffer : list Z;
  rxBuffer : list Z;
  slaves : gmap Z chip;
  wire_log : list transfer
}.

Definition chip_receive (frame : list Z) (c : chip) : chip :=
  match frame with
  | [] => c
  | r :: hi :: lo :: _ =>
      {| pointer := r; registers := <[r := (hi, lo)]> (registers c) |}
  | r :: _ => {| pointer := r; registers := registers c |}
  end.

(** Delivery of a frame to the slave at [address], if there is one. *)
Definition deliver (address : Z) (frame : list Z) (s : gmap Z chip)
  : gmap Z chip :=
  match s !! address with
  | Some c => <[address := chip_receive frame c]> s
  | None => s
  end.

Definition chip_bytes (c : chip) (r : Z) : Z * Z :=
  default (0, 0) (registers c !! r).

Definition chip_transmit (c : chip) : list Z :=
  let '(hi, lo) := chip_bytes c (pointer c) in [hi; lo].

(** The instance of the driver.  The types of the three fields are
    declared in INA219.h; the driver only ever stores an address byte and
    the numbers 0, 1, 2, 10, 20 and 25 in them, which every integer type
    holds. *)
Record INA219 : Type := {
  ina219_i2caddr : Z;
  ina219_currentDivider_mA : Z;
  ina219_powerDivider_mW : Z
}.

Record world : Type := { Wire : TwoWire; this : INA219 }.

(** Computations of the driver: they read and update the world and may
    leave defined behaviour. *)
Definition M (A : Type) : Type := world -> result (A * world).

Definition ret {A} (a : A) : M A := fun w => Ok (a, w).

Definition bind {A B} (m : M A) (k : A -> M B) : M B :=
  fun w =>
    match m w with
    | Ok (a, w') => k a w'
    | Undefined f => Undefined f
    end.

Definition lift {A} (r : result A) : M A :=
  fun w =>
    match r with
    | Ok a => Ok (a, w)
    | Undefined f => Undefined f
    end.

Declare Scope driver_scope.
Delimit Scope driver_scope with driver.
Notation "'let*' x ':=' c1 'in' c2" := (bind c1 (fun x => c2))
  (at level 10, x name, c1 at level 100, c2 at level 200) : driver_scope.
Notation "c1 ;; c2" := (bind c1 (fun _ => c2))
  (at level 100, c2 at level 200, right associativity) : driver_scope.
Local Open Scope driver_scope.

(** The value a computation returns, the world dropped. *)
Definition returns {A} (m : M A) (w : world) : result A :=
  match m w with
  | Ok (a, _) => Ok a
  | Undefined f => Undefined f
  end.

Definition with_wire (f : TwoWire -> TwoWire) : M unit :=
  fun w => Ok (tt, {| Wire := f (Wire w); this := this w |}).

Definition with_this (f : INA219 -> INA219) : M unit :=
  fun w => Ok (tt, {| Wire := Wire w; this := f (this w) |}).

Definition get_this {A} (f : INA219 -> A) : M A :=
  fun w => Ok (f (this w), w).

(** [Wire.begin()] *)
Definition Wire_begin : M unit :=
  with_wire (fun b =>
    {| begun := true; txAddress := txAddress b; txBuffer := [];
       rxBuffer := []; slaves := slaves b; wire_log := wire_log b |}).

(** [Wire.beginTransmission(address)] *)
Definition Wire_beginTransmission (address : Z) : M unit :=
  with_wire (fun b =>
    {| begun := begun b; txAddress := address; txBuffer := [];
       rxBuffer := rxBuffer b; slaves := slaves b; wire_log := wire_log b |}).

(** [Wire.write(data)] and, before Arduino 1.0, [Wire.send(data)]: one
    byte is queued. *)
Definition Wire_write (data : Z) : M unit :=
  with_wire (fun b =>
    {| begun := begun b; txAddress := txAddress b;
       txBuffer := txBuffer b ++ [to_uint8 data];
       rxBuffer := rxBuffer b; slaves := slaves b; wire_log := wire_log b |}).

Definition Wire_send (data : Z) : M unit := Wire_write data.

(** [Wire.endTransmission()]: the queued frame goes to the slave at the
    address of the transmission, if there is one. *)
Definition Wire_endTransmission : M unit :=
  with_wire (fun b =>
    {| begun := begun b; txAddress := txAddress b; txBuffer := [];
       rxBuffer := rxBuffer b;
       slaves := deliver (txAddress b) (txBuffer b) (slaves b);
       wire_log := wire_log b ++ [Sent (txAddress b) (txBuffer b)] |}).

(** [Wire.requestFrom(address, quantity)] *)
Definition Wire_requestFrom (address quantity : Z) : M unit :=
  with_wire (fun b =>
    {| begun := begun b; txAddress := txAddress b; txBuffer := txBuffer b;
       rxBuffer :=
         match slaves b !! address with
         | Some c => take (Z.to_nat quantity) (chip_transmit c)
         | None => []
         end;
       slaves := slaves b;
       wire_log := wire_log b ++ [Requested address quantity] |}).

Definition Wire_pop (empty : Z) : M Z :=
  fun w =>
    let b := Wire w in
    match rxBuffer b with
    | [] => Ok (empty, w)
    | x :: rest =>
        Ok (x, {| Wire := {| begun := begun b; txAddress := txAddress b;
                             txBuffer := txBuffer b; rxBuffer := rest;
                             slaves := slaves b; wire_log := wire_log b |};
                  this := this w |})
    end.

(** [Wire.read()] is an [int], -1 when nothing was received;
    [Wire.receive()] is a byte, 0 when nothing was received. *)
Definition Wire_read : M Z := Wire_pop (-1).
Definition Wire_receive : M Z := Wire_pop 0.

(* ===================================================================== *)
(** * The driver *)
(* ===================================================================== *)

(** The macros of INA219.h that the driver uses. *)
Record INA219_h : Type := {
  INA219_REG_CONFIG : Z;
  INA219_REG_SHUNTVOLTAGE : Z;
  INA219_REG_BUSVOLTAGE : Z;
  INA219_REG_CURRENT : Z;
  INA219_REG_CALIBRATION : Z;
  INA219_CONFIG_BVOLTAGERANGE_16V : Z;
  INA219_CONFIG_BVOLTAGERANGE_32V : Z;
  INA219_CONFIG_GAIN_1_40MV : Z;
  INA219_CONFIG_GAIN_8_320MV : Z;
  INA219_CONFIG_BADCRES_12BIT : Z;
  INA219_CONFIG_SADCRES_12BIT_1S_532US : Z;
  INA219_CONFIG_MODE_SANDBVOLT_CONTINUOUS : Z
}.

(** What fixes a build of the firmware: the header, the data model of the
    board and the value of the macro [ARDUINO], the version of the Arduino
    core the firmware is compiled against. *)
Record build : Type := {
  header : INA219_h;
  board : abi;
  ARDUINO_version : Z
}.

Definition set_currentDivider_mA (v : Z) : M unit :=
  with_this (fun o =>
    {| ina219_i2caddr := ina219_i2caddr o;
       ina219_currentDivider_mA := v;
       ina219_powerDivider_mW := ina219_powerDivider_mW o |}).

Definition set_powerDivider_mW (v : Z) : M unit :=
  with_this (fun o =>
    {| ina219_i2caddr := ina219_i2caddr o;
       ina219_currentDivider_mA := ina219_currentDivider_mA o;
       ina219_powerDivider_mW := v |}).

(** [INA219::INA219(uint8_t addr)] *)
Definition INA219_INA219 (addr : Z) : INA219 :=
  {| ina219_i2caddr := addr;
     ina219_currentDivider_mA := 0;
     ina219_powerDivider_mW := 0 |}.

Section Driver.

Variable b : build.
Local Abbreviation h := (header b).
Local Abbreviation target := (board b).
Local Abbreviation ARDUINO := (ARDUINO_version b).

(** [void INA219::wireWriteRegister(uint8_t reg, uint16_t value)] *)
Definition wireWriteRegister (reg value : Z) : M unit :=
  let* addr := get_this ina219_i2caddr in
  Wire_beginTransmission addr ;;
  (if 100 <=? ARDUINO then
     Wire_write reg ;;
     Wire_write (Z.land (Z.shiftr value 8) 0xFF) ;;
     Wire_write (Z.land value 0xFF)
   else
     Wire_send reg ;;
     Wire_send (Z.shiftr value 8) ;;
     Wire_send (Z.land value 0xFF)) ;;
  Wire_endTransmission.

(** [void INA219::wireReadRegister(uint8_t reg, uint16_t *value)]; the
    value stored through the pointer is the value returned here.  The
    two reads are taken in the order in which they are written. *)
Definition wireReadRegister (reg : Z) : M Z :=
  let* addr := get_this ina219_i2caddr in
  Wire_beginTransmission addr ;;
  (if 100 <=? ARDUINO then Wire_write reg else Wire_send reg) ;;
  Wire_endTransmission ;;
  Wire_requestFrom addr (to_uint8 2) ;;
  if 100 <=? ARDUINO then
    let* first := Wire_read in
    let* second := Wire_read in
    ret (to_uint16 (to_int target (to_int target (Z.shiftl first 8) + second)))
  else
    let* first := Wire_receive in
    let* second := Wire_receive in
    ret (to_uint16 (to_int target (to_int target (Z.shiftl first 8) + second))).

(** [void INA219::ina219SetCalibration_32V_2A(void)] *)
Definition ina219SetCalibration_32V_2A : M unit :=
  set_currentDivider_mA 10 ;;
  set_powerDivider_mW 2 ;;
  wireWriteRegister (to_uint8 (INA219_REG_CALIBRATION h)) (to_uint16 0x1000) ;;
  let config :=
    to_uint16
      (Z.lor (Z.lor (Z.lor (Z.lor
         (INA219_CONFIG_BVOLTAGERANGE_32V h)
         (INA219_CONFIG_GAIN_8_320MV h))
         (INA219_CONFIG_BADCRES_12BIT h))
         (INA219_CONFIG_SADCRES_12BIT_1S_532US h))
         (INA219_CONFIG_MODE_SANDBVOLT_CONTINUOUS h)) in
  wireWriteRegister (to_uint8 (INA219_REG_CONFIG h)) config.

(** [void INA219::ina219SetCalibration_32V_1A(void)] *)
Definition ina219SetCalibration_32V_1A : M unit :=
  set_currentDivider_mA 25 ;;
  set_powerDivider_mW 1 ;;
  wireWriteRegister (to_uint8 (INA219_REG_CALIBRATION h)) (to_uint16 0x2800) ;;
  let config :=
    to_uint16
      (Z.lor (Z.lor (Z.lor (Z.lor
         (INA219_CONFIG_BVOLTAGERANGE_32V h)
         (INA219_CONFIG_GAIN_8_320MV h))
         (INA219_CONFIG_BADCRES_12BIT h))
         (INA219_CONFIG_SADCRES_12BIT_1S_532US h))
         (INA219_CONFIG_MODE_SANDBVOLT_CONTINUOUS h)) in
  wireWriteRegister (to_uint8 (INA219_REG_CONFIG h)) config.

(** [void INA219::ina219SetCalibration_16V_400mA(void)] *)
Definition ina219SetCalibration_16V_400mA : M unit :=
  set_currentDivider_mA 20 ;;
  set_powerDivider_mW 1 ;;
  wireWriteRegister (to_uint8 (INA219_REG_CALIBRATION h)) (to_uint16 8192) ;;
  let config :=
    to_uint16
      (Z.lor (Z.lor (Z.lor (Z.lor
         (INA219_CONFIG_BVOLTAGERANGE_16V h)
         (INA219_CONFIG_GAIN_1_40MV h))
         (INA219_CONFIG_BADCRES_12BIT h))
         (INA219_CONFIG_SADCRES_12BIT_1S_532US h))
         (INA219_CONFIG_MODE_SANDBVOLT_CONTINUOUS h)) in
  wireWriteRegister (to_uint8 (INA219_REG_CONFIG h)) config.

(** [void INA219::begin()] *)
Definition begin : M unit :=
  Wire_begin ;;
  ina219SetCalibration_32V_2A.

(** [int16_t INA219::getBusVoltage_raw()] *)
Definition getBusVoltage_raw : M Z :=
  let* value := wireReadRegister (to_uint8 (INA219_REG_BUSVOLTAGE h)) in
  ret (to_int16 (promoted target (Z.shiftr value 3 * 4))).

(** [int16_t INA219::getShuntVoltage_raw()] *)
Definition getShuntVoltage_raw : M Z :=
  let* value := wireReadRegister (to_uint8 (INA219_REG_SHUNTVOLTAGE h)) in
  ret (to_int16 value).

(** [int16_t INA219::getCurrent_raw()] *)
Definition getCurrent_raw : M Z :=
  let* value := wireReadRegister (to_uint8 (INA219_REG_CURRENT h)) in
  ret (to_int16 value).

(** [int16_t INA219::getShuntVoltage_mV()] *)
Definition getShuntVoltage_mV : M Z :=
  let* value := wireReadRegister (to_uint8 (INA219_REG_SHUNTVOLTAGE h)) in
  let value := if 650 <=? value then 0 else value in
  ret (to_int16 value).

(** [int16_t INA219::getBusVoltage_V()] *)
Definition getBusVoltage_V : M Z :=
  let* value := wireReadRegister (to_uint8 (INA219_REG_BUSVOLTAGE h)) in
  ret (to_int16 (promoted target (Z.shiftl (Z.shiftr value 3) 2))).

(** [int16_t INA219::getCurrent_mA()]: the quotient is a [float], the
    sum with the literal [0.5] a [double]. *)
Definition getCurrent_mA : M Z :=
  let* value := wireReadRegister (to_uint8 (INA219_REG_CURRENT h)) in
  let valueDec := float_of_Z (float_fmt target) (to_int16 value) in
  let* divider := get_this ina219_currentDivider_mA in
  let* valueDec :=
    lift (fdiv (float_fmt target) valueDec
               (float_of_Z (float_fmt target) divider)) in
  lift (float_to_int16
          (SFadd (prec (double_fmt target)) (emax (double_fmt target))
                 (float_convert (float_fmt target) (double_fmt target)
                                valueDec)
                 (one_half (double_fmt target)))).

End Driver.

(** The methods of the class, as a caller invokes them one after the
    other. *)
Inductive method : Type :=
  | call_wireWriteRegister (reg value : Z)
  | call_wireReadRegister (reg : Z)
  | call_ina219SetCalibration_32V_2A
  | call_ina219SetCalibration_32V_1A
  | call_ina219SetCalibration_16V_400mA
  | call_begin
  | call_getBusVoltage_raw
  | call_getShuntVoltage_raw
  | call_getCurrent_raw
  | call_getShuntVoltage_mV
  | call_getBusVoltage_V
  | call_getCurrent_mA.

Definition discard {A} (m : M A) : M unit := let* _x := m in ret tt.

Definition invoke (b : build) (m : method) : M unit :=
  match m with
  | call_wireWriteRegister reg value =>
      wireWriteRegister b (to_uint8 reg) (to_uint16 value)
  | call_wireReadRegister reg => discard (wireReadRegister b (to_uint8 reg))
  | call_ina219SetCalibration_32V_2A => ina219SetCalibration_32V_2A b
  | call_ina219SetCalibration_32V_1A => ina219SetCalibration_32V_1A b
  | call_ina219SetCalibration_16V_400mA => ina219SetCalibration_16V_400mA b
  | call_begin => begin b
  | call_getBusVoltage_raw => discard (getBusVoltage_raw b)
  | call_getShuntVoltage_raw => discard (getShuntVoltage_raw b)
  | call_getCurrent_raw => discard (getCurrent_raw b)
  | call_getShuntVoltage_mV => discard (getShuntVoltage_mV b)
  | call_getBusVoltage_V => discard (getBusVoltage_V b)
  | call_getCurrent_mA => discard (getCurrent_mA b)
  end.

Fixpoint run (b : build) (calls : list method) : M unit :=
  match calls with
  | [] => ret tt
  | m :: rest => invoke b m ;; run b rest
  end.

(** The calls that apply a calibration preset: the three presets and
    [begin], which applies the first of them. *)
Definition applies_preset (m : method) : bool :=
  match m with
  | call_ina219SetCalibration_32V_2A
  | call_ina219SetCalibration_32V_1A
  | call_ina219SetCalibration_16V_400mA
  | call_begin => true
  | _ => false
  end.

(* ===================================================================== *)
(** * Notions of the specification *)
(* ===================================================================== *)

(** The frame that writes the 16-bit [value] into register [reg] of the
    slave at [address]: register first, then the most significant byte,
    then the least significant one. *)
Definition register_write (address reg value : Z) : transfer :=
  Sent address [reg; value / 2 ^ 8; value mod 2 ^ 8].

(** The 16-bit word that the slave at the address of the driver holds in
    register [reg], if there is such a slave. *)
Definition register_word (w : world) (reg : Z) : option Z :=
  match slaves (Wire w) !! ina219_i2caddr (this w) with
  | Some c =>
      let '(hi, lo) := chip_bytes c (to_uint8 reg) in Some (hi * 2 ^ 8 + lo)
  | None => None
  end.

(** The configuration words of the presets: bus voltage range, gain, bus
    and shunt ADC resolution and mode, combined by bitwise or. *)
Definition config_32V_320mV (h : INA219_h) : Z :=
  Z.lor (Z.lor (Z.lor (Z.lor
    (INA219_CONFIG_BVOLTAGERANGE_32V h)
    (INA219_CONFIG_GAIN_8_320MV h))
    (INA219_CONFIG_BADCRES_12BIT h))
    (INA219_CONFIG_SADCRES_12BIT_1S_532US h))
    (INA219_CONFIG_MODE_SANDBVOLT_CONTINUOUS h).

Definition config_16V_40mV (h : INA219_h) : Z :=
  Z.lor (Z.lor (Z.lor (Z.lor
    (INA219_CONFIG_BVOLTAGERANGE_16V h)
    (INA219_CONFIG_GAIN_1_40MV h))
    (INA219_CONFIG_BADCRES_12BIT h))
    (INA219_CONFIG_SADCRES_12BIT_1S_532US h))
    (INA219_CONFIG_MODE_SANDBVOLT_CONTINUOUS h).

(** The calibration presets and what the specification documents for
    each: calibration constant, configuration word, current and power
    divisor. *)
Inductive preset : Type := Preset_32V_2A | Preset_32V_1A | Preset_16V_400mA.

Definition apply_preset (b : build) (p : preset) : M unit :=
  match p with
  | Preset_32V_2A => ina219SetCalibration_32V_2A b
  | Preset_32V_1A => ina219SetCalibration_32V_1A b
  | Preset_16V_400mA => ina219SetCalibration_16V_400mA b
  end.

Definition documented_calibration (p : preset) : Z :=
  match p with
  | Preset_32V_2A => 0x1000
  | Preset_32V_1A => 0x2800
  | Preset_16V_400mA => 8192
  end.

Definition documented_config (h : INA219_h) (p : preset) : Z :=
  match p with
  | Preset_32V_2A => config_32V_320mV h
  | Preset_32V_1A => config_32V_320mV h
  | Preset_16V_400mA => config_16V_40mV h
  end.

Definition documented_currentDivisor (p : preset) : Z :=
  match p with
  | Preset_32V_2A => 10
  | Preset_32V_1A => 25
  | Preset_16V_400mA => 20
  end.

Definition documented_powerDivisor (p : preset) : Z :=
  match p with
  | Preset_32V_2A => 2
  | Preset_32V_1A => 1
  | Preset_16V_400mA => 1
  end.

(** Rounding of a rational toward zero. *)
Definition Qtruncate (q : Q) : Z :=
  if Qle_bool 0 q then Qfloor q else Qceiling q.

(** What the specification asks of [current_mA]: [v / d + 0.5], truncated
    toward zero, in exact arithmetic. *)
Definition spec_current_mA (v d : Z) : Z :=
  Qtruncate ((inject_Z v / inject_Z d + (1 # 2))%Q).

(** The driver has been calibrated: its current divider is the one of a
    preset. *)
Definition calibrated (o : INA219) : bool :=
  (ina219_currentDivider_mA o =? 10)
  || (ina219_currentDivider_mA o =? 25)
  || (ina219_currentDivider_mA o =? 20).

(** The arithmetic of [getCurrent_mA] after the register has been read:
    the sum with [0.5] and the conversion to [int16_t], and before them
    the division. *)
Definition add_half (t : abi) (q : spec_float) : result Z :=
  float_to_int16
    (SFadd (prec (double_fmt t)) (emax (double_fmt t))
           (float_convert (float_fmt t) (double_fmt t) q)
           (one_half (double_fmt t))).

Definition scale_current (t : abi) (divider value : Z) : result Z :=
  match fdiv (float_fmt t) (float_of_Z (float_fmt t) (to_int16 value))
             (float_of_Z (float_fmt t) divider) with
  | Ok q => add_half t q
  | Undefined f => Undefined f
  end.

(** A concrete header for the examples: the register addresses and the
    encodings of the configuration fields of the INA219 data sheet. *)
Definition datasheet : INA219_h := {|
  INA219_REG_CONFIG := 0x00;
  INA219_REG_SHUNTVOLTAGE := 0x01;
  INA219_REG_BUSVOLTAGE := 0x02;
  INA219_REG_CURRENT := 0x04;
  INA219_REG_CALIBRATION := 0x05;
  INA219_CONFIG_BVOLTAGERANGE_16V := 0x0000;
  INA219_CONFIG_BVOLTAGERANGE_32V := 0x2000;
  INA219_CONFIG_GAIN_1_40MV := 0x0000;
  INA219_CONFIG_GAIN_8_320MV := 0x1800;
  INA219_CONFIG_BADCRES_12BIT := 0x0400;
  INA219_CONFIG_SADCRES_12BIT_1S_532US := 0x0018;
  INA219_CONFIG_MODE_SANDBVOLT_CONTINUOUS := 0x0007
|}.

Definition uno : build :=
  {| header := datasheet; board := AVR; ARDUINO_version := 106 |}.
Definition due : build :=
  {| header := datasheet; board := ILP32; ARDUINO_version := 106 |}.
Definition uno_0022 : build :=
  {| header := datasheet; board := AVR; ARDUINO_version := 22 |}.

(** A bus with one chip at address [0x40]. *)
Definition sample_chip : chip :=
  {| pointer := 0;
     registers := {[ 0x01 := (0x80, 0x01);
                     0x02 := (0x1F, 0x28);
                     0x04 := (0xFF, 0x9C) ]} |}.

Definition sample_bus : TwoWire :=
  {| begun := false; txAddress := 0; txBuffer := []; rxBuffer := [];
     slaves := {[ 0x40 := sample_chip ]}; wire_log := [] |}.

Definition sample_world : world :=
  {| Wire := sample_bus; this := INA219_INA219 0x40 |}.

(** The world a computation leaves behind. *)
Definition world_after {A} (m : M A) (w : world) : world :=
  match m w with
  | Ok (_, w') => w'
  | Undefined _ => w
  end.

(** The scenario of the specification: a driver constructed with address
    [0x40] and initialised, on a bus whose chip holds [0x1F28] in the bus
    voltage register. *)
Definition scenario_world : world := world_after (begin uno) sample_world.

(** A second chip, with a small shunt voltage and a positive current. *)
Definition quiet_chip : chip :=
  {| pointer := 0;
     registers := {[ 0x01 := (0x01, 0x2C);
                     0x02 := (0x5D, 0xC3);
                     0x04 := (0x00, 0x64) ]} |}.

Definition quiet_world : world :=
  world_after (ina219SetCalibration_32V_1A due)
    {| Wire := {| begun := true; txAddress := 0; txBuffer := [];
                  rxBuffer := []; slaves := {[ 0x41 := quiet_chip ]};
                  wire_log := [] |};
       this := INA219_INA219 0x41 |}.

(** A few calls that apply no preset. *)
Definition idle_calls : list method :=
  [call_getBusVoltage_raw; call_wireWriteRegister 0x05 0x1000;
   call_getShuntVoltage_mV; call_wireReadRegister 0x05; call_getCurrent_raw].

(* ===================================================================== *)
(** * Notions used in the proofs *)
(* ===================================================================== *)

(** The frame of a register write, as the driver queues it. *)
Definition queued_frame (reg value : Z) : list Z :=
  [to_uint8 reg; to_uint8 (Z.shiftr value 8); to_uint8 value].

(** A computation that, when it returns, has not touched the fields of
    the driver. *)
Definition keeps_this {A} (m : M A) : Prop :=
  forall w a w', m w = Ok (a, w') -> this w' = this w.

(** A computation that always returns. *)
Definition total {A} (m : M A) : Prop :=
  forall w, exists a w', m w = Ok (a, w').

(** A computation whose returned value, when it returns, satisfies [P]. *)
Definition yields {A} (P : A -> Prop) (m : M A) : Prop :=
  forall w a w', m w = Ok (a, w') -> P a.

(** The world after [wireWriteRegister(reg, value)]. *)
Definition after_register_write (reg value : Z) (w : world) : world :=
  {| Wire :=
       {| begun := begun (Wire w);
          txAddress := ina219_i2caddr (this w);
          txBuffer := [];
          rxBuffer := rxBuffer (Wire w);
          slaves := deliver (ina219_i2caddr (this w))
                            (queued_frame reg value) (slaves (Wire w));
          wire_log := wire_log (Wire w)
                      ++ [Sent (ina219_i2caddr (this w))
                               (queued_frame reg value)] |};
     this := this w |}.

(** The driver with its two dividers replaced. *)
Definition with_dividers (current power : Z) (w : world) : world :=
  {| Wire := Wire w;
     this := {| ina219_i2caddr := ina219_i2caddr (this w);
                ina219_currentDivider_mA := current;
                ina219_powerDivider_mW := power |} |}.

(** The bus after [Wire.begin()]. *)
Definition with_bus_begun (w : world) : world :=
  {| Wire := {| begun := true; txAddress := txAddress (Wire w);
                txBuffer := []; rxBuffer := [];
                slaves := slaves (Wire w);
                wire_log := wire_log (Wire w) |};
     this := this w |}.

(** The bytes, and the exhaustive comparison of [scale_current] with the
    specification over all pairs of bytes, that is over all values of the
    current register. *)
Definition all_bytes : list Z := map Z.of_nat (seq 0 256).

Definition result_is (r : result Z) (z : Z) : bool :=
  match r with
  | Ok a => a =? z
  | Undefined _ => false
  end.

(** One value of the current register, checked for the dividers 10 and 25
    on both data models; [y10] and [y25] are the two dividers as floats.
    The specification is taken in its closed form, the quotient that
    truncates toward zero. *)
Definition current_check_value (y10 y25 : spec_float) (value : Z) : bool :=
  let v := to_int16 value in
  let x := float_of_Z binary32 v in
  let q10 := SFdiv (prec binary32) (emax binary32) x y10 in
  let q25 := SFdiv (prec binary32) (emax binary32) x y25 in
  let s10 := Z.quot (2 * v + 10) (2 * 10) in
  let s25 := Z.quot (2 * v + 25) (2 * 25) in
  result_is (add_half AVR q10) s10
  && result_is (add_half ILP32 q10) s10
  && result_is (add_half AVR q25) s25
  && result_is (add_half ILP32 q25) s25.

Definition current_check_all (y10 y25 : spec_float) : bool :=
  forallb (fun hi =>
    forallb (fun lo => current_check_value y10 y25 (hi * 2 ^ 8 + lo))
      all_bytes)
    all_bytes.


(* ===================================================================== *)
(** * Further notions: reads, stores and histories *)
(* ===================================================================== *)

(** The world after [wireReadRegister(reg, &value)]: the register has been
    selected, two bytes have been requested and consumed. *)
Definition after_register_read (reg : Z) (w : world) : world :=
  {| Wire :=
       {| begun := begun (Wire w);
          txAddress := ina219_i2caddr (this w);
          txBuffer := [];
          rxBuffer := [];
          slaves := deliver (ina219_i2caddr (this w)) [to_uint8 reg]
                            (slaves (Wire w));
          wire_log := wire_log (Wire w)
                      ++ [Sent (ina219_i2caddr (this w)) [to_uint8 reg];
                          Requested (ina219_i2caddr (this w)) 2] |};
     this := this w |}.

(** Two worlds in which the chip of the driver holds the same words. *)
Definition same_registers (w1 w2 : world) : Prop :=
  forall reg, register_word w1 reg = register_word w2 reg.


(** The register a call reads, for the calls that only read. *)
Definition register_read (h : INA219_h) (m : method) : option Z :=
  match m with
  | call_wireReadRegister reg => Some reg
  | call_getBusVoltage_raw => Some (INA219_REG_BUSVOLTAGE h)
  | call_getShuntVoltage_raw => Some (INA219_REG_SHUNTVOLTAGE h)
  | call_getCurrent_raw => Some (INA219_REG_CURRENT h)
  | call_getShuntVoltage_mV => Some (INA219_REG_SHUNTVOLTAGE h)
  | call_getBusVoltage_V => Some (INA219_REG_BUSVOLTAGE h)
  | call_getCurrent_mA => Some (INA219_REG_CURRENT h)
  | _ => None
  end.

Definition is_read (h : INA219_h) (m : method) : bool :=
  match register_read h m with Some _ => true | None => false end.

(** The preset a call applies, if it applies one. *)
Definition preset_applied (m : method) : option preset :=
  match m with
  | call_ina219SetCalibration_32V_2A => Some Preset_32V_2A
  | call_ina219SetCalibration_32V_1A => Some Preset_32V_1A
  | call_ina219SetCalibration_16V_400mA => Some Preset_16V_400mA
  | call_begin => Some Preset_32V_2A
  | _ => None
  end.

(** The preset applied last in a sequence of calls. *)
Fixpoint last_preset (calls : list method) : option preset :=
  match calls with
  | [] => None
  | m :: rest =>
      match last_preset rest with
      | Some p => Some p
      | None => preset_applied m
      end
  end.

(** The dividers a history of calls leaves: those of the last preset, zero
    when no preset was applied. *)
Definition dividers_of (p : option preset) : Z * Z :=
  match p with
  | Some p => (documented_currentDivisor p, documented_powerDivisor p)
  | None => (0, 0)
  end.

(** What [wireReadRegister] assembles when no byte was received. *)
Definition nothing_received (b : build) : Z :=
  let empty := if 100 <=? ARDUINO_version b then -1 else 0 in
  to_uint16 (to_int (board b) (to_int (board b) (Z.shiftl empty 8) + empty)).

(** The value a read-only call returns. *)
Definition read_value (b : build) (m : method) : M Z :=
  match m with
  | call_wireReadRegister reg => wireReadRegister b (to_uint8 reg)
  | call_getBusVoltage_raw => getBusVoltage_raw b
  | call_getShuntVoltage_raw => getShuntVoltage_raw b
  | call_getCurrent_raw => getCurrent_raw b
  | call_getShuntVoltage_mV => getShuntVoltage_mV b
  | call_getBusVoltage_V => getBusVoltage_V b
  | call_getCurrent_mA => getCurrent_mA b
  | _ => ret 0
  end.

(** The scenario again, with the raw value 100 in the current register. *)
Definition scenario_world_100 : world :=
  world_after (wireWriteRegister uno 0x04 0x0064) scenario_world.
(* ===================================================================== *)
(** * Fixed-width arithmetic: lemmas *)
(* ===================================================================== *)

Section Integers.

Lemma to_uint8_range (x : Z) : 0 <= to_uint8 x < 2 ^ 8.
Proof. unfold to_uint8. apply Z.mod_pos_bound. lia. Qed.

Lemma to_uint16_range (x : Z) : 0 <= to_uint16 x < 2 ^ 16.
Proof. unfold to_uint16. apply Z.mod_pos_bound. lia. Qed.

Lemma to_uint8_small (x : Z) : 0 <= x < 2 ^ 8 -> to_uint8 x = x.
Proof. intros Hx. unfold to_uint8. now apply Z.mod_small. Qed.

Lemma to_uint16_small (x : Z) : 0 <= x < 2 ^ 16 -> to_uint16 x = x.
Proof. intros Hx. unfold to_uint16. now apply Z.mod_small. Qed.

Lemma to_int16_small (x : Z) : - 2 ^ 15 <= x < 2 ^ 15 -> to_int16 x = x.
Proof.
  intros Hx. unfold to_int16.
  rewrite Z.mod_small; lia.
Qed.

Lemma to_int16_range (x : Z) : - 2 ^ 15 <= to_int16 x < 2 ^ 15.
Proof.
  unfold to_int16.
  pose proof (Z.mod_pos_bound (x + 2 ^ 15) (2 ^ 16)). lia.
Qed.

(** The sign bit set means a negative value. *)
Lemma to_int16_high (x : Z) :
  2 ^ 15 <= x < 2 ^ 16 -> to_int16 x = x - 2 ^ 16.
Proof.
  intros Hx. unfold to_int16.
  replace (x + 2 ^ 15) with (x - 2 ^ 15 + 1 * 2 ^ 16) by lia.
  rewrite Z.mod_add by lia.
  rewrite Z.mod_small; lia.
Qed.

Lemma to_int_small (t : abi) (x : Z) :
  - 2 ^ 15 <= x < 2 ^ 15 -> to_int t x = x.
Proof.
  intros Hx. unfold to_int.
  destruct t; cbn [int_bits]; rewrite Z.mod_small; lia.
Qed.

Lemma promoted_small (t : abi) (x : Z) :
  0 <= x < 2 ^ 15 -> promoted t x = x.
Proof.
  intros Hx. destruct t; cbn [promoted].
  - unfold to_uint. cbn [int_bits]. rewrite Z.mod_small; lia.
  - apply to_int_small. lia.
Qed.

(** Only the low 16 bits of an [int] survive the conversion to
    [uint16_t], whatever the width of [int]. *)
Lemma to_uint16_to_int (t : abi) (x : Z) :
  to_uint16 (to_int t x) = to_uint16 x.
Proof.
  unfold to_uint16, to_int.
  assert (Hdiv : forall a, (a mod 2 ^ int_bits t) mod 2 ^ 16 = a mod 2 ^ 16).
  { intros a. apply Z.mod_mod_divide.
    destruct t; cbn [int_bits].
    - exists 1. lia.
    - exists (2 ^ 16). lia. }
  rewrite Zminus_mod, Hdiv, <- Zminus_mod.
  f_equal. lia.
Qed.

Lemma assemble_int (t : abi) (first second : Z) :
  to_uint16 (to_int t (to_int t (Z.shiftl first 8) + second))
  = to_uint16 (first * 2 ^ 8 + second).
Proof.
  rewrite to_uint16_to_int.
  unfold to_uint16 at 1. rewrite Zplus_mod.
  fold (to_uint16 (to_int t (Z.shiftl first 8))).
  rewrite to_uint16_to_int. unfold to_uint16.
  rewrite <- Zplus_mod, Z.shiftl_mul_pow2 by lia.
  reflexivity.
Qed.

Lemma to_uint8_land (x : Z) : to_uint8 (Z.land x 0xFF) = to_uint8 x.
Proof.
  unfold to_uint8. change 0xFF with (Z.ones 8).
  rewrite Z.land_ones by lia. apply Z.mod_mod. lia.
Qed.

Lemma to_uint8_high (x : Z) :
  0 <= x < 2 ^ 16 -> to_uint8 (Z.shiftr x 8) = x / 2 ^ 8.
Proof.
  intros Hx. rewrite Z.shiftr_div_pow2 by lia.
  apply to_uint8_small. split.
  - apply Z.div_pos; lia.
  - apply Z.div_lt_upper_bound; lia.
Qed.

Lemma to_uint8_idem (x : Z) : to_uint8 (to_uint8 x) = to_uint8 x.
Proof. unfold to_uint8. apply Z.mod_mod. lia. Qed.

Lemma shiftr3_range (v : Z) : 0 <= v < 2 ^ 16 -> 0 <= Z.shiftr v 3 < 2 ^ 13.
Proof.
  intros Hv. rewrite Z.shiftr_div_pow2 by lia. split.
  - apply Z.div_pos; lia.
  - apply Z.div_lt_upper_bound; lia.
Qed.

Lemma bytes_of_word (x : Z) : x / 2 ^ 8 * 2 ^ 8 + x mod 2 ^ 8 = x.
Proof. pose proof (Z.div_mod x (2 ^ 8)). lia. Qed.

End Integers.

(* ===================================================================== *)
(** * The bus primitives *)
(* ===================================================================== *)

Ltac run_wire :=
  unfold discard, Wire_begin, Wire_beginTransmission, Wire_send, Wire_write,
    Wire_endTransmission, Wire_requestFrom, Wire_read, Wire_receive,
    Wire_pop, get_this, with_wire, bind, ret;
  cbn [Wire this begun txAddress txBuffer rxBuffer slaves wire_log app].

Section Primitives.

Variable b : build.

(** [wireWriteRegister] hands one frame of three bytes to the bus and
    leaves the driver untouched.  Both branches of the version switch
    queue the same bytes. *)
Lemma wireWriteRegister_effect (reg value : Z) (w : world) :
  wireWriteRegister b reg value w
  = Ok (tt, after_register_write reg value w).
Proof.
  unfold wireWriteRegister, after_register_write, queued_frame.
  destruct (100 <=? ARDUINO_version b); run_wire;
    rewrite ?to_uint8_land; reflexivity.
Qed.

Lemma queued_frame_bytes (reg value : Z) :
  0 <= value < 2 ^ 16 ->
  queued_frame reg value = [to_uint8 reg; value / 2 ^ 8; value mod 2 ^ 8].
Proof.
  intros Hv. unfold queued_frame.
  rewrite to_uint8_high by assumption.
  reflexivity.
Qed.

(** The register store after a register write. *)
Lemma after_register_write_slave (reg value : Z) (w : world) (c : chip) :
  slaves (Wire w) !! ina219_i2caddr (this w) = Some c ->
  slaves (Wire (after_register_write reg value w))
    !! ina219_i2caddr (this (after_register_write reg value w))
  = Some (chip_receive (queued_frame reg value) c).
Proof.
  intros Hc. cbn [after_register_write Wire this slaves].
  unfold deliver. rewrite Hc. apply lookup_insert_eq.
Qed.

Lemma chip_bytes_written (reg value : Z) (c : chip) :
  0 <= value < 2 ^ 16 ->
  chip_bytes (chip_receive (queued_frame reg value) c) (to_uint8 reg)
  = (value / 2 ^ 8, value mod 2 ^ 8).
Proof.
  intros Hv. rewrite queued_frame_bytes by assumption.
  unfold chip_bytes. cbn [chip_receive registers].
  rewrite lookup_insert_eq. reflexivity.
Qed.

Lemma chip_bytes_elsewhere (reg value other : Z) (c : chip) :
  to_uint8 reg <> other ->
  chip_bytes (chip_receive (queued_frame reg value) c) other
  = chip_bytes c other.
Proof.
  intros Hne. unfold chip_bytes, queued_frame. cbn [chip_receive registers].
  rewrite lookup_insert_ne by assumption. reflexivity.
Qed.

Lemma register_word_written (reg value : Z) (w : world) (c : chip) :
  slaves (Wire w) !! ina219_i2caddr (this w) = Some c ->
  0 <= value < 2 ^ 16 ->
  register_word (after_register_write reg value w) reg = Some value.
Proof.
  intros Hc Hv. unfold register_word.
  rewrite (after_register_write_slave _ _ _ _ Hc).
  rewrite chip_bytes_written by assumption.
  rewrite bytes_of_word. reflexivity.
Qed.

(** What the chip at the address of the driver answers. *)
Lemma wireReadRegister_value (reg v : Z) (w : world) :
  register_word w reg = Some v ->
  exists w', wireReadRegister b reg w = Ok (to_uint16 v, w')
             /\ this w' = this w.
Proof.
  unfold register_word, wireReadRegister.
  destruct (slaves (Wire w) !! ina219_i2caddr (this w)) as [c|] eqn:Hc;
    [|discriminate].
  destruct (chip_bytes c (to_uint8 reg)) as [hi lo] eqn:Hb.
  intros [= <-].
  destruct (100 <=? ARDUINO_version b); run_wire;
    unfold deliver; rewrite Hc, lookup_insert_eq;
    unfold chip_transmit; cbn [chip_receive pointer registers];
    change (chip_bytes _ (to_uint8 reg)) with (chip_bytes c (to_uint8 reg));
    rewrite Hb; change (Z.to_nat (to_uint8 2)) with 2%nat;
    cbn [take Wire this begun txAddress txBuffer rxBuffer slaves wire_log];
    rewrite assemble_int; eauto.
Qed.

End Primitives.

(* ===================================================================== *)
(** * What a call leaves of the driver and of the bus *)
(* ===================================================================== *)

Create HintDb driver.

Section Frames.

Context {A B : Type}.

Lemma keeps_ret (a : A) : keeps_this (ret a).
Proof. intros w a' w' [= _ <-]. reflexivity. Qed.

Lemma keeps_lift (r : result A) : keeps_this (lift r).
Proof. intros w a w'. unfold lift. destruct r; [intros [= _ <-]|]; easy. Qed.

Lemma keeps_get_this (f : INA219 -> A) : keeps_this (get_this f).
Proof. intros w a w' [= _ <-]. reflexivity. Qed.

Lemma keeps_bind (m : M A) (k : A -> M B) :
  keeps_this m -> (forall a, keeps_this (k a)) -> keeps_this (bind m k).
Proof.
  intros Hm Hk w y w'. unfold bind.
  destruct (m w) as [[a w1]|f] eqn:E; [|discriminate].
  intros Hy. rewrite (Hk _ _ _ _ Hy). eauto.
Qed.

Lemma keeps_if (c : bool) (m1 m2 : M A) :
  keeps_this m1 -> keeps_this m2 -> keeps_this (if c then m1 else m2).
Proof. destruct c; trivial. Qed.

Lemma yields_ret (P : A -> Prop) (a : A) : P a -> yields P (ret a).
Proof. intros Ha w a' w' [= <- _]. exact Ha. Qed.

Lemma yields_bind (P : B -> Prop) (m : M A) (k : A -> M B) :
  (forall a, yields P (k a)) -> yields P (bind m k).
Proof.
  intros Hk w y w'. unfold bind.
  destruct (m w) as [[a w1]|f]; [|discriminate].
  apply Hk.
Qed.

Lemma yields_if (P : A -> Prop) (c : bool) (m1 m2 : M A) :
  yields P m1 -> yields P m2 -> yields P (if c then m1 else m2).
Proof. destruct c; trivial. Qed.

Lemma total_ret (a : A) : total (ret a).
Proof. intros w. unfold ret. eauto. Qed.

Lemma total_get_this (f : INA219 -> A) : total (get_this f).
Proof. intros w. unfold get_this. eauto. Qed.

Lemma total_bind (m : M A) (k : A -> M B) :
  total m -> (forall a, total (k a)) -> total (bind m k).
Proof.
  intros Hm Hk w. unfold bind.
  destruct (Hm w) as (a & w1 & ->). apply Hk.
Qed.

Lemma total_if (c : bool) (m1 m2 : M A) :
  total m1 -> total m2 -> total (if c then m1 else m2).
Proof. destruct c; trivial. Qed.

End Frames.

Lemma keeps_with_wire (f : TwoWire -> TwoWire) : keeps_this (with_wire f).
Proof. intros w a w' [= _ <-]. reflexivity. Qed.

Lemma keeps_Wire_pop (empty : Z) : keeps_this (Wire_pop empty).
Proof.
  intros w a w'. unfold Wire_pop.
  destruct (rxBuffer (Wire w)); intros [= _ <-]; reflexivity.
Qed.

Lemma total_with_wire (f : TwoWire -> TwoWire) : total (with_wire f).
Proof. intros w. unfold with_wire. eauto. Qed.

Lemma total_with_this (f : INA219 -> INA219) : total (with_this f).
Proof. intros w. unfold with_this. eauto. Qed.

Lemma total_Wire_pop (empty : Z) : total (Wire_pop empty).
Proof. intros w. unfold Wire_pop. destruct (rxBuffer (Wire w)); eauto. Qed.

#[export] Hint Resolve keeps_ret keeps_lift keeps_get_this keeps_bind
  keeps_if keeps_with_wire keeps_Wire_pop : driver.
#[export] Hint Resolve yields_ret yields_bind yields_if : driver.
#[export] Hint Resolve total_ret total_get_this total_bind total_if
  total_with_wire total_with_this total_Wire_pop : driver.

Ltac open_wire :=
  unfold discard, Wire_begin, Wire_beginTransmission, Wire_send, Wire_write,
    Wire_endTransmission, Wire_requestFrom, Wire_read, Wire_receive.

Section Calls.

Variable b : build.

Lemma keeps_wireWriteRegister (reg value : Z) :
  keeps_this (wireWriteRegister b reg value).
Proof. unfold wireWriteRegister. open_wire. auto 20 with driver. Qed.

Lemma keeps_wireReadRegister (reg : Z) :
  keeps_this (wireReadRegister b reg).
Proof. unfold wireReadRegister. open_wire. auto 20 with driver. Qed.

Lemma total_wireWriteRegister (reg value : Z) :
  total (wireWriteRegister b reg value).
Proof. unfold wireWriteRegister. open_wire. auto 20 with driver. Qed.

Lemma total_wireReadRegister (reg : Z) :
  total (wireReadRegister b reg).
Proof. unfold wireReadRegister. open_wire. auto 20 with driver. Qed.

Hint Resolve keeps_wireWriteRegister keeps_wireReadRegister
  total_wireWriteRegister total_wireReadRegister : driver.

(** The value read is a [uint16_t]. *)
Lemma wireReadRegister_range (reg v : Z) (w w' : world) :
  wireReadRegister b reg w = Ok (v, w') -> 0 <= v < 2 ^ 16.
Proof.
  revert w v w'. change (yields (fun v => 0 <= v < 2 ^ 16)
                                (wireReadRegister b reg)).
  unfold wireReadRegister.
  auto 20 using to_uint16_range with driver.
Qed.

(** Every call but [getCurrent_mA] returns; every call that does not
    apply a preset leaves the driver as it was. *)
Lemma keeps_invoke (m : method) :
  applies_preset m = false -> keeps_this (invoke b m).
Proof.
  destruct m; cbn [applies_preset invoke]; try discriminate; intros _;
    unfold discard, getBusVoltage_raw, getShuntVoltage_raw, getCurrent_raw,
      getShuntVoltage_mV, getBusVoltage_V, getCurrent_mA;
    cbv zeta; auto 20 with driver.
Qed.

End Calls.

(* ===================================================================== *)
(** * Presets and initialisation *)
(* ===================================================================== *)

Ltac run_preset :=
  unfold bind, set_currentDivider_mA, set_powerDivider_mW, with_this;
  cbv zeta;
  rewrite !wireWriteRegister_effect;
  reflexivity.

Section Presets.

Variable b : build.
Local Abbreviation h := (header b).

Lemma ina219SetCalibration_32V_2A_effect (w : world) :
  ina219SetCalibration_32V_2A b w
  = Ok (tt,
        after_register_write (to_uint8 (INA219_REG_CONFIG h))
          (to_uint16 (config_32V_320mV h))
          (after_register_write (to_uint8 (INA219_REG_CALIBRATION h))
             (to_uint16 0x1000) (with_dividers 10 2 w))).
Proof. unfold ina219SetCalibration_32V_2A. run_preset. Qed.

Lemma ina219SetCalibration_32V_1A_effect (w : world) :
  ina219SetCalibration_32V_1A b w
  = Ok (tt,
        after_register_write (to_uint8 (INA219_REG_CONFIG h))
          (to_uint16 (config_32V_320mV h))
          (after_register_write (to_uint8 (INA219_REG_CALIBRATION h))
             (to_uint16 0x2800) (with_dividers 25 1 w))).
Proof. unfold ina219SetCalibration_32V_1A. run_preset. Qed.

Lemma ina219SetCalibration_16V_400mA_effect (w : world) :
  ina219SetCalibration_16V_400mA b w
  = Ok (tt,
        after_register_write (to_uint8 (INA219_REG_CONFIG h))
          (to_uint16 (config_16V_40mV h))
          (after_register_write (to_uint8 (INA219_REG_CALIBRATION h))
             (to_uint16 8192) (with_dividers 20 1 w))).
Proof. unfold ina219SetCalibration_16V_400mA. run_preset. Qed.

Lemma begin_effect (w : world) :
  begin b w = ina219SetCalibration_32V_2A b (with_bus_begun w).
Proof. reflexivity. Qed.

(** The frame queued for a 16-bit value is the register write of that
    value. *)
Lemma queued_register_write (address reg value : Z) :
  Sent address (queued_frame (to_uint8 reg) (to_uint16 value))
  = register_write address (to_uint8 reg) (to_uint16 value).
Proof.
  unfold register_write.
  rewrite queued_frame_bytes by apply to_uint16_range.
  rewrite to_uint8_idem. reflexivity.
Qed.

Lemma log_after_two_writes (r1 v1 r2 v2 : Z) (w : world) :
  wire_log (Wire (after_register_write (to_uint8 r2) (to_uint16 v2)
                    (after_register_write (to_uint8 r1) (to_uint16 v1) w)))
  = wire_log (Wire w)
    ++ [register_write (ina219_i2caddr (this w)) (to_uint8 r1) (to_uint16 v1);
        register_write (ina219_i2caddr (this w)) (to_uint8 r2) (to_uint16 v2)].
Proof.
  cbn [after_register_write Wire this wire_log].
  rewrite !queued_register_write, <- app_assoc. reflexivity.
Qed.

End Presets.

(* ===================================================================== *)
(** * Reading a register that holds a known word *)
(* ===================================================================== *)

Section Accessors.

Variable b : build.
Local Abbreviation h := (header b).

Lemma register_word_to_uint8 (w : world) (reg : Z) :
  register_word w (to_uint8 reg) = register_word w reg.
Proof. unfold register_word. rewrite to_uint8_idem. reflexivity. Qed.

(** An accessor starts by reading its register; when the chip holds the
    16-bit word [v] there, the rest of the accessor runs on [v]. *)
Lemma read_then (reg v : Z) (w : world) :
  register_word w reg = Some v ->
  0 <= v < 2 ^ 16 ->
  exists w1,
    this w1 = this w
    /\ forall (A : Type) (k : Z -> M A),
         bind (wireReadRegister b (to_uint8 reg)) k w = k v w1.
Proof.
  intros Hword Hv.
  rewrite <- register_word_to_uint8 in Hword.
  destruct (wireReadRegister_value b _ _ _ Hword) as (w1 & Hread & Hthis).
  rewrite to_uint16_small in Hread by assumption.
  exists w1. split; [assumption|].
  intros A k. unfold bind. rewrite Hread. reflexivity.
Qed.

Lemma getBusVoltage_word (v : Z) (w : world) :
  register_word w (INA219_REG_BUSVOLTAGE h) = Some v ->
  0 <= v < 2 ^ 16 ->
  exists w1, getBusVoltage_raw b w = Ok (Z.shiftr v 3 * 4, w1)
             /\ getBusVoltage_V b w = Ok (Z.shiftr v 3 * 4, w1).
Proof.
  intros Hword Hv.
  pose proof (shiftr3_range v Hv) as Hs.
  destruct (read_then _ _ _ Hword Hv) as (w1 & _ & Hk).
  exists w1. unfold getBusVoltage_raw, getBusVoltage_V.
  rewrite !Hk. unfold ret.
  rewrite Z.shiftl_mul_pow2 by lia. change (2 ^ 2) with 4.
  rewrite promoted_small, to_int16_small by lia.
  split; reflexivity.
Qed.

Lemma getShuntVoltage_mV_word (v : Z) (w : world) :
  register_word w (INA219_REG_SHUNTVOLTAGE h) = Some v ->
  0 <= v < 2 ^ 16 ->
  returns (getShuntVoltage_mV b) w = Ok (if 650 <=? v then 0 else v).
Proof.
  intros Hword Hv.
  destruct (read_then _ _ _ Hword Hv) as (w1 & _ & Hk).
  unfold returns, getShuntVoltage_mV. rewrite Hk. cbv zeta. unfold ret.
  destruct (Z.leb_spec 650 v).
  - reflexivity.
  - rewrite to_int16_small by lia. reflexivity.
Qed.

(** Whatever the bus answers, the accessor returns, and what it returns
    lies between 0 and 649. *)
Lemma getShuntVoltage_mV_bounds (w : world) :
  exists r w', getShuntVoltage_mV b w = Ok (r, w') /\ 0 <= r <= 649.
Proof.
  unfold getShuntVoltage_mV, bind.
  destruct (total_wireReadRegister b (to_uint8 (INA219_REG_SHUNTVOLTAGE h)) w)
    as (value & w1 & Hread).
  rewrite Hread. pose proof (wireReadRegister_range b _ _ _ _ Hread) as Hv.
  cbv zeta. unfold ret. eexists _, _. split; [reflexivity|].
  destruct (Z.leb_spec 650 value).
  - change (to_int16 0) with 0. lia.
  - rewrite to_int16_small by lia. lia.
Qed.

End Accessors.

(* ===================================================================== *)
(** * The conversion to milliamperes *)
(* ===================================================================== *)

Lemma in_all_bytes (x : Z) : 0 <= x < 2 ^ 8 -> In x all_bytes.
Proof.
  intros Hx. unfold all_bytes.
  apply in_map_iff. exists (Z.to_nat x). split; [lia|].
  apply in_seq. lia.
Qed.

(** The specification in closed form: [v / d + 1/2] truncated toward zero
    is the truncating quotient of [2 v + d] by [2 d]. *)
Lemma Qtruncate_make (n : Z) (p : positive) :
  Qtruncate (n # p) = Z.quot n (Z.pos p).
Proof.
  unfold Qtruncate, Qle_bool, Qceiling, Qfloor, Qopp.
  cbn [Qnum Qden]. rewrite Z.mul_0_l, Z.mul_1_r.
  destruct (Z.leb_spec 0 n) as [Hn|Hn].
  - symmetry. apply Z.quot_div_nonneg; lia.
  - rewrite <- (Z.opp_involutive n) at 2.
    rewrite Z.quot_opp_l by lia.
    rewrite Z.quot_div_nonneg by lia. reflexivity.
Qed.

Lemma spec_current_mA_quot (v d : Z) :
  0 < d -> spec_current_mA v d = Z.quot (2 * v + d) (2 * d).
Proof.
  intros Hd. destruct d as [|p|p]; try lia.
  unfold spec_current_mA, Qdiv, Qinv, Qmult, Qplus, inject_Z.
  cbn [Qnum Qden]. rewrite Qtruncate_make.
  f_equal; lia.
Qed.

Lemma result_is_true (r : result Z) (z : Z) : result_is r z = true -> r = Ok z.
Proof.
  destruct r as [a|f]; cbn; [|discriminate].
  intros Ha. apply Z.eqb_eq in Ha. now subst.
Qed.

(** The check covers every value of the register. *)
Lemma current_check_all_sound (y10 y25 : spec_float) (value : Z) :
  current_check_all y10 y25 = true ->
  0 <= value < 2 ^ 16 ->
  current_check_value y10 y25 value = true.
Proof.
  intros Hall Hv. unfold current_check_all in Hall.
  rewrite forallb_forall in Hall.
  assert (Hhi : In (value / 2 ^ 8) all_bytes).
  { apply in_all_bytes. split.
    - apply Z.div_pos; lia.
    - apply Z.div_lt_upper_bound; lia. }
  specialize (Hall _ Hhi). rewrite forallb_forall in Hall.
  assert (Hlo : In (value mod 2 ^ 8) all_bytes).
  { apply in_all_bytes. apply Z.mod_pos_bound. lia. }
  specialize (Hall _ Hlo).
  rewrite bytes_of_word in Hall. exact Hall.
Qed.

Lemma current_checked :
  current_check_all (float_of_Z binary32 10) (float_of_Z binary32 25) = true.
Proof. vm_cast_no_check (eq_refl true). Qed.

Lemma scale_current_divide (t : abi) (d value : Z) :
  float_is_zero (float_of_Z binary32 d) = false ->
  scale_current t d value
  = add_half t (SFdiv (prec binary32) (emax binary32)
                      (float_of_Z binary32 (to_int16 value))
                      (float_of_Z binary32 d)).
Proof.
  intros Hd. unfold scale_current, fdiv, float_fmt.
  rewrite Hd. reflexivity.
Qed.

Lemma current_check_value_sound (y10 y25 : spec_float) (value : Z) (t : abi) :
  current_check_value y10 y25 value = true ->
  add_half t (SFdiv (prec binary32) (emax binary32)
                    (float_of_Z binary32 (to_int16 value)) y10)
  = Ok (Z.quot (2 * to_int16 value + 10) (2 * 10))
  /\ add_half t (SFdiv (prec binary32) (emax binary32)
                       (float_of_Z binary32 (to_int16 value)) y25)
     = Ok (Z.quot (2 * to_int16 value + 25) (2 * 25)).
Proof.
  unfold current_check_value. cbv zeta. intros Hc.
  apply andb_prop in Hc as [Hc H25I].
  apply andb_prop in Hc as [Hc H25A].
  apply andb_prop in Hc as [H10A H10I].
  apply result_is_true in H10A, H10I, H25A, H25I.
  destruct t; split; assumption.
Qed.

(** On both data models and for the dividers 10 and 25, the floating
    point computation returns [v / d + 0.5] truncated toward zero. *)
Lemma scale_current_spec (t : abi) (d value : Z) :
  d = 10 \/ d = 25 ->
  0 <= value < 2 ^ 16 ->
  scale_current t d value = Ok (spec_current_mA (to_int16 value) d).
Proof.
  intros Hd Hv.
  pose proof (current_check_value_sound
                (float_of_Z binary32 10) (float_of_Z binary32 25) value t
                (current_check_all_sound
                   (float_of_Z binary32 10) (float_of_Z binary32 25) value
                   current_checked Hv))
    as [H10 H25].
  rewrite spec_current_mA_quot by lia.
  destruct Hd as [-> | ->]; rewrite scale_current_divide by reflexivity.
  - exact H10.
  - exact H25.
Qed.

Lemma scale_current_zero_divider (t : abi) (value : Z) :
  scale_current t 0 value = Undefined DivideByZero.
Proof. reflexivity. Qed.

Lemma float_to_int16_fault (x : spec_float) :
  float_to_int16 x <> Undefined DivideByZero.
Proof.
  unfold float_to_int16.
  destruct (float_trunc x) as [z|]; [|discriminate].
  destruct (_ && _); discriminate.
Qed.

(** With the divider of a preset the guard of the division passes. *)
Lemma scale_current_guard (t : abi) (d value : Z) :
  d = 10 \/ d = 25 \/ d = 20 ->
  scale_current t d value <> Undefined DivideByZero.
Proof.
  intros Hd.
  rewrite scale_current_divide
    by (destruct Hd as [->|[->| ->]]; reflexivity).
  apply float_to_int16_fault.
Qed.

Section Current.

Variable b : build.
Local Abbreviation h := (header b).

(** [getCurrent_mA] reads the current register and then scales. *)
Lemma getCurrent_mA_scale (w : world) :
  exists value w1,
    wireReadRegister b (to_uint8 (INA219_REG_CURRENT h)) w = Ok (value, w1)
    /\ 0 <= value < 2 ^ 16
    /\ getCurrent_mA b w
       = lift (scale_current (board b) (ina219_currentDivider_mA (this w))
                             value) w1.
Proof.
  destruct (total_wireReadRegister b (to_uint8 (INA219_REG_CURRENT h)) w)
    as (value & w1 & Hread).
  exists value, w1. split; [assumption|]. split.
  - eapply wireReadRegister_range; eassumption.
  - pose proof (keeps_wireReadRegister b _ _ _ _ Hread) as Hthis.
    unfold getCurrent_mA, bind at 1. rewrite Hread.
    unfold bind, get_this, scale_current, add_half. rewrite Hthis.
    destruct (fdiv _ _ _); reflexivity.
Qed.

Lemma getCurrent_mA_word (v : Z) (w : world) :
  register_word w (INA219_REG_CURRENT h) = Some v ->
  0 <= v < 2 ^ 16 ->
  returns (getCurrent_mA b) w
  = scale_current (board b) (ina219_currentDivider_mA (this w)) v.
Proof.
  intros Hword Hv.
  destruct (read_then b _ _ _ Hword Hv) as (w1 & Hthis & Hk).
  unfold returns, getCurrent_mA. rewrite Hk.
  unfold bind, get_this, scale_current, add_half. rewrite Hthis.
  destruct (fdiv _ _ _) as [q|f]; cbn [lift]; [|reflexivity].
  destruct (float_to_int16 _); reflexivity.
Qed.

Lemma calibrated_divider (o : INA219) :
  calibrated o = true ->
  ina219_currentDivider_mA o = 10
  \/ ina219_currentDivider_mA o = 25
  \/ ina219_currentDivider_mA o = 20.
Proof. unfold calibrated. lia. Qed.

End Current.

(* ===================================================================== *)
(** * Sequences of calls *)
(* ===================================================================== *)

Section Histories.

Variable b : build.

Lemma apply_preset_effect (p : preset) (w : world) :
  apply_preset b p w
  = Ok (tt,
        after_register_write (to_uint8 (INA219_REG_CONFIG (header b)))
          (to_uint16 (documented_config (header b) p))
          (after_register_write (to_uint8 (INA219_REG_CALIBRATION (header b)))
             (to_uint16 (documented_calibration p))
             (with_dividers (documented_currentDivisor p)
                            (documented_powerDivisor p) w))).
Proof.
  destruct p; cbn [apply_preset documented_config documented_calibration
                   documented_currentDivisor documented_powerDivisor].
  - apply ina219SetCalibration_32V_2A_effect.
  - apply ina219SetCalibration_32V_1A_effect.
  - apply ina219SetCalibration_16V_400mA_effect.
Qed.

(** On a bus with a chip at the address of the driver, whose calibration
    and configuration registers have different addresses, the chip holds
    the calibration constant and the configuration word afterwards. *)
Lemma apply_preset_stored (p : preset) (w : world) (c : chip) :
  slaves (Wire w) !! ina219_i2caddr (this w) = Some c ->
  to_uint8 (INA219_REG_CALIBRATION (header b))
  <> to_uint8 (INA219_REG_CONFIG (header b)) ->
  exists w',
    apply_preset b p w = Ok (tt, w')
    /\ register_word w' (INA219_REG_CALIBRATION (header b))
       = Some (documented_calibration p)
    /\ register_word w' (INA219_REG_CONFIG (header b))
       = Some (to_uint16 (documented_config (header b) p)).
Proof.
  intros Hc Hne. eexists. split; [apply apply_preset_effect|].
  set (w0 := with_dividers _ _ w).
  assert (Hc0 : slaves (Wire w0) !! ina219_i2caddr (this w0) = Some c)
    by exact Hc.
  pose proof (after_register_write_slave
                (to_uint8 (INA219_REG_CALIBRATION (header b)))
                (to_uint16 (documented_calibration p)) w0 c Hc0) as Hc1.
  set (w1 := after_register_write _ _ w0) in *.
  split.
  - unfold register_word.
    rewrite (after_register_write_slave _ _ _ _ Hc1).
    rewrite chip_bytes_elsewhere by (rewrite to_uint8_idem; congruence).
    pose proof (chip_bytes_written
                  (to_uint8 (INA219_REG_CALIBRATION (header b)))
                  (to_uint16 (documented_calibration p)) c
                  (to_uint16_range _)) as Hcal.
    rewrite to_uint8_idem in Hcal. rewrite Hcal.
    rewrite bytes_of_word. destruct p; reflexivity.
  - rewrite <- register_word_to_uint8.
    apply (register_word_written _ _ _ _ Hc1). apply to_uint16_range.
Qed.

(** A call that applies a preset is one of the three presets, possibly on
    a bus that has just been enabled. *)
Lemma invoke_preset (m : method) (w : world) :
  applies_preset m = true ->
  exists p w0, this w0 = this w /\ invoke b m w = apply_preset b p w0.
Proof.
  destruct m; cbn [applies_preset invoke]; try discriminate; intros _.
  - exists Preset_32V_2A, w. split; reflexivity.
  - exists Preset_32V_1A, w. split; reflexivity.
  - exists Preset_16V_400mA, w. split; reflexivity.
  - exists Preset_32V_2A, (with_bus_begun w). split; reflexivity.
Qed.

Lemma invoke_preset_dividers (m : method) (w w' : world) :
  applies_preset m = true ->
  invoke b m w = Ok (tt, w') ->
  ina219_currentDivider_mA (this w') <> 0
  /\ ina219_powerDivider_mW (this w') <> 0.
Proof.
  intros Hm Hrun.
  destruct (invoke_preset m w Hm) as (p & w0 & _ & E).
  rewrite E, apply_preset_effect in Hrun.
  injection Hrun as <-.
  destruct p; cbn; lia.
Qed.

(** Once set, the dividers never return to zero. *)
Lemma invoke_keeps_nonzero (m : method) (w w' : world) :
  invoke b m w = Ok (tt, w') ->
  ina219_currentDivider_mA (this w) <> 0
  /\ ina219_powerDivider_mW (this w) <> 0 ->
  ina219_currentDivider_mA (this w') <> 0
  /\ ina219_powerDivider_mW (this w') <> 0.
Proof.
  intros Hrun Hnz.
  destruct (applies_preset m) eqn:Hm.
  - eapply invoke_preset_dividers; eassumption.
  - rewrite (keeps_invoke b m Hm _ _ _ Hrun). exact Hnz.
Qed.

Lemma run_cons (m : method) (calls : list method) (w w' : world) :
  run b (m :: calls) w = Ok (tt, w') ->
  exists w1, invoke b m w = Ok (tt, w1) /\ run b calls w1 = Ok (tt, w').
Proof.
  cbn [run]. unfold bind.
  destruct (invoke b m w) as [[[] w1]|f]; [|discriminate].
  eauto.
Qed.

Lemma run_keeps_this (calls : list method) (w w' : world) :
  existsb applies_preset calls = false ->
  run b calls w = Ok (tt, w') ->
  this w' = this w.
Proof.
  revert w. induction calls as [|m calls IH]; intros w Hnone Hrun.
  - injection Hrun as <-. reflexivity.
  - cbn [existsb] in Hnone. apply orb_false_iff in Hnone as [Hm Hrest].
    destruct (run_cons _ _ _ _ Hrun) as (w1 & H1 & H2).
    rewrite (IH _ Hrest H2).
    exact (keeps_invoke b m Hm _ _ _ H1).
Qed.

Lemma run_keeps_nonzero (calls : list method) (w w' : world) :
  run b calls w = Ok (tt, w') ->
  ina219_currentDivider_mA (this w) <> 0
  /\ ina219_powerDivider_mW (this w) <> 0 ->
  ina219_currentDivider_mA (this w') <> 0
  /\ ina219_powerDivider_mW (this w') <> 0.
Proof.
  revert w. induction calls as [|m calls IH]; intros w Hrun Hnz.
  - injection Hrun as <-. exact Hnz.
  - destruct (run_cons _ _ _ _ Hrun) as (w1 & H1 & H2).
    eauto using invoke_keeps_nonzero.
Qed.

Lemma run_with_preset (calls : list method) (w w' : world) :
  existsb applies_preset calls = true ->
  run b calls w = Ok (tt, w') ->
  ina219_currentDivider_mA (this w') <> 0
  /\ ina219_powerDivider_mW (this w') <> 0.
Proof.
  revert w. induction calls as [|m calls IH]; intros w Hsome Hrun.
  - discriminate.
  - destruct (run_cons _ _ _ _ Hrun) as (w1 & H1 & H2).
    cbn [existsb] in Hsome.
    destruct (applies_preset m) eqn:Hm.
    + eapply run_keeps_nonzero; [eassumption|].
      eapply invoke_preset_dividers; eassumption.
    + eauto.
Qed.

End Histories.

(* ===================================================================== *)
(** * The properties of the specification *)
(* ===================================================================== *)

(** C1. Each of the three calibration presets (32V/2A, 32V/1A, 16V/400mA)
    returns, and when it has returned the driver has handed exactly two
    frames to the bus: the write of the documented calibration constant
    (0x1000, 0x2800, 8192) to the calibration register, then the write of
    the documented configuration word, the bitwise or of the five field
    macros as a [uint16_t], to the configuration register; the current and
    power dividers are (10, 2), (25, 1) and (20, 1). *)
Theorem presets_write_documented_values (b : build) (p : preset) (w : world) :
  exists w',
    apply_preset b p w = Ok (tt, w')
    /\ wire_log (Wire w')
       = wire_log (Wire w)
         ++ [register_write (ina219_i2caddr (this w))
               (to_uint8 (INA219_REG_CALIBRATION (header b)))
               (documented_calibration p);
             register_write (ina219_i2caddr (this w))
               (to_uint8 (INA219_REG_CONFIG (header b)))
               (to_uint16 (documented_config (header b) p))]
    /\ ina219_currentDivider_mA (this w') = documented_currentDivisor p
    /\ ina219_powerDivider_mW (this w') = documented_powerDivisor p
    /\ ina219_i2caddr (this w') = ina219_i2caddr (this w)
    /\ (documented_calibration Preset_32V_2A,
        documented_calibration Preset_32V_1A,
        documented_calibration Preset_16V_400mA) = (0x1000, 0x2800, 8192)
    /\ (documented_currentDivisor Preset_32V_2A,
        documented_powerDivisor Preset_32V_2A) = (10, 2)
    /\ (documented_currentDivisor Preset_32V_1A,
        documented_powerDivisor Preset_32V_1A) = (25, 1)
    /\ (documented_currentDivisor Preset_16V_400mA,
        documented_powerDivisor Preset_16V_400mA) = (20, 1).
Proof.
  eexists. split; [apply apply_preset_effect|].
  split.
  - rewrite log_after_two_writes. cbn [with_dividers this Wire].
    replace (to_uint16 (documented_calibration p))
      with (documented_calibration p) by (destruct p; reflexivity).
    reflexivity.
  - repeat split.
Qed.

(** C2 (as amended). When the chip holds the raw value 0x1F28 in the bus
    voltage register, [getBusVoltage_raw] returns (0x1F28 >> 3) * 4, which
    is 3988. *)
Theorem getBusVoltage_raw_0x1F28 (b : build) (w : world) :
  register_word w (INA219_REG_BUSVOLTAGE (header b)) = Some 0x1F28 ->
  returns (getBusVoltage_raw b) w = Ok (Z.shiftr 0x1F28 3 * 4)
  /\ Z.shiftr 0x1F28 3 * 4 = 3988.
Proof.
  intros Hword.
  destruct (getBusVoltage_word b _ _ Hword) as (w1 & Hraw & _); [lia|].
  unfold returns. rewrite Hraw. split; reflexivity.
Qed.

Lemma getBusVoltage_raw_0x1F28_witness :
  register_word scenario_world (INA219_REG_BUSVOLTAGE (header uno))
  = Some 0x1F28
  /\ returns (getBusVoltage_raw uno) scenario_world = Ok 3988.
Proof.
  split; [reflexivity|].
  apply (getBusVoltage_raw_0x1F28 uno scenario_world). reflexivity.
Defined.

(** C2 (as stated) fails: in the scenario of the specification the bus
    voltage register holds 0x1F28 and [getBusVoltage_raw] returns 3988,
    not 16160; (0x1F28 >> 3) * 4 is not 16160 either. *)
Lemma getBusVoltage_raw_0x1F28_not_16160 :
  register_word scenario_world (INA219_REG_BUSVOLTAGE (header uno))
  = Some 0x1F28
  /\ returns (getBusVoltage_raw uno) scenario_world = Ok 3988
  /\ returns (getBusVoltage_raw uno) scenario_world <> Ok 16160
  /\ Z.shiftr 0x1F28 3 * 4 <> 16160.
Proof.
  assert (E : returns (getBusVoltage_raw uno) scenario_world = Ok 3988)
    by (vm_compute; reflexivity).
  repeat split; try assumption.
  - rewrite E. discriminate.
  - discriminate.
Qed.

(** C3. For every 16-bit raw value [v] of the bus voltage register,
    [getBusVoltage_raw] and [getBusVoltage_V] have the same outcome, and
    the value both return is [(v >> 3) * 4]. *)
Theorem bus_voltage_accessors_agree (b : build) (w : world) (v : Z) :
  register_word w (INA219_REG_BUSVOLTAGE (header b)) = Some v ->
  0 <= v < 2 ^ 16 ->
  getBusVoltage_raw b w = getBusVoltage_V b w
  /\ returns (getBusVoltage_raw b) w = Ok (Z.shiftr v 3 * 4)
  /\ returns (getBusVoltage_V b) w = Ok (Z.shiftr v 3 * 4).
Proof.
  intros Hword Hv.
  destruct (getBusVoltage_word b _ _ Hword Hv) as (w1 & Hraw & HV).
  unfold returns. rewrite Hraw, HV. repeat split.
Qed.

Lemma bus_voltage_accessors_agree_witness :
  register_word quiet_world (INA219_REG_BUSVOLTAGE (header due)) = Some 0x5DC3
  /\ 0 <= 0x5DC3 < 2 ^ 16
  /\ getBusVoltage_raw due quiet_world = getBusVoltage_V due quiet_world
  /\ returns (getBusVoltage_raw due) quiet_world = Ok 12000
  /\ returns (getBusVoltage_V due) quiet_world = Ok 12000.
Proof.
  split; [reflexivity|]. split; [lia|].
  apply (bus_voltage_accessors_agree due quiet_world 0x5DC3);
    [reflexivity|lia].
Defined.

(** C4. For every 16-bit raw value [v] of the shunt voltage register, read
    as unsigned: if [v] is in [650, 65535] then [getShuntVoltage_mV]
    returns 0, and if [v < 650] it returns the signed 16-bit
    reinterpretation of [v]. *)
Theorem getShuntVoltage_mV_clamps (b : build) (w : world) (v : Z) :
  register_word w (INA219_REG_SHUNTVOLTAGE (header b)) = Some v ->
  0 <= v < 2 ^ 16 ->
  (650 <= v <= 65535 -> returns (getShuntVoltage_mV b) w = Ok 0)
  /\ (v < 650 -> returns (getShuntVoltage_mV b) w = Ok (to_int16 v)).
Proof.
  intros Hword Hv.
  rewrite (getShuntVoltage_mV_word b _ _ Hword Hv).
  split; intros Hcase.
  - destruct (Z.leb_spec 650 v); [reflexivity|lia].
  - destruct (Z.leb_spec 650 v); [lia|].
    rewrite to_int16_small by lia. reflexivity.
Qed.

Lemma getShuntVoltage_mV_clamps_witness :
  register_word quiet_world (INA219_REG_SHUNTVOLTAGE (header due)) = Some 300
  /\ 0 <= 300 < 2 ^ 16
  /\ 300 < 650
  /\ returns (getShuntVoltage_mV due) quiet_world = Ok 300.
Proof.
  split; [reflexivity|]. split; [lia|]. split; [lia|].
  apply (getShuntVoltage_mV_clamps due quiet_world 300); [reflexivity|lia|lia].
Defined.

(** C5. For every raw value of the current register, [v] its signed
    reinterpretation, and for the divider [d] of the 32V/2A preset (10) or
    of the 32V/1A preset (25), [getCurrent_mA] returns [v / d + 0.5]
    truncated toward zero, which is the truncating quotient of [2 v + d]
    by [2 d]: half-way cases go up for [v >= 0] and toward zero for
    [v < 0].  Raw bits equal to unsigned 100 with [d = 10] yield 10; raw
    bits equal to signed -100 with [d = 10] yield -9. *)
Theorem getCurrent_mA_rounds (b : build) (w : world) (u d : Z) :
  register_word w (INA219_REG_CURRENT (header b)) = Some u ->
  0 <= u < 2 ^ 16 ->
  ina219_currentDivider_mA (this w) = d ->
  d = 10 \/ d = 25 ->
  returns (getCurrent_mA b) w = Ok (spec_current_mA (to_int16 u) d)
  /\ spec_current_mA (to_int16 u) d = Z.quot (2 * to_int16 u + d) (2 * d)
  /\ (u = 100 -> d = 10 -> returns (getCurrent_mA b) w = Ok 10)
  /\ (to_int16 u = -100 -> d = 10 -> returns (getCurrent_mA b) w = Ok (-9)).
Proof.
  intros Hword Hu Hdiv Hd.
  rewrite (getCurrent_mA_word b _ _ Hword Hu), Hdiv.
  rewrite scale_current_spec by assumption.
  split; [reflexivity|]. split; [apply spec_current_mA_quot; lia|].
  split.
  - intros -> ->. reflexivity.
  - intros -> ->. reflexivity.
Qed.

Lemma getCurrent_mA_rounds_witness :
  register_word scenario_world (INA219_REG_CURRENT (header uno)) = Some 0xFF9C
  /\ 0 <= 0xFF9C < 2 ^ 16
  /\ ina219_currentDivider_mA (this scenario_world) = 10
  /\ (10 = 10 \/ 10 = 25)
  /\ to_int16 0xFF9C = -100
  /\ returns (getCurrent_mA uno) scenario_world = Ok (-9).
Proof.
  split; [reflexivity|]. split; [lia|]. split; [reflexivity|].
  split; [left; reflexivity|]. split; [reflexivity|].
  apply (getCurrent_mA_rounds uno scenario_world 0xFF9C 10);
    first [reflexivity | lia | left; reflexivity].
Defined.

(** C6. For every 16-bit value [x] and register [reg], on a bus with a
    chip at the address of the driver: [wireWriteRegister(reg, x)] hands
    over the frame with the most significant byte first, the chip records
    the two data bytes, and [wireReadRegister(reg)] afterwards returns
    exactly [x], the first byte times 256 plus the second. *)
Theorem write_then_read_round_trip
    (b : build) (reg x : Z) (w : world) (c : chip) :
  0 <= x < 2 ^ 16 ->
  slaves (Wire w) !! ina219_i2caddr (this w) = Some c ->
  exists w1 c1 w2,
    wireWriteRegister b reg x w = Ok (tt, w1)
    /\ wire_log (Wire w1)
       = wire_log (Wire w)
         ++ [register_write (ina219_i2caddr (this w)) (to_uint8 reg) x]
    /\ slaves (Wire w1) !! ina219_i2caddr (this w1) = Some c1
    /\ registers c1 !! to_uint8 reg = Some (x / 2 ^ 8, x mod 2 ^ 8)
    /\ wireReadRegister b reg w1 = Ok (x, w2)
    /\ x = (x / 2 ^ 8) * 2 ^ 8 + x mod 2 ^ 8.
Proof.
  intros Hx Hc.
  exists (after_register_write reg x w),
         (chip_receive (queued_frame reg x) c).
  pose proof (register_word_written reg x w c Hc Hx) as Hword.
  destruct (wireReadRegister_value b _ _ _ Hword) as (w2 & Hread & _).
  rewrite to_uint16_small in Hread by assumption.
  exists w2. split; [apply wireWriteRegister_effect|].
  split.
  { cbn [after_register_write Wire wire_log]. unfold register_write.
    rewrite queued_frame_bytes by assumption. reflexivity. }
  split; [now apply after_register_write_slave|].
  split.
  { rewrite queued_frame_bytes by assumption.
    cbn [chip_receive registers]. apply lookup_insert_eq. }
  split; [assumption|].
  symmetry. apply bytes_of_word.
Qed.

Lemma write_then_read_round_trip_witness :
  0 <= 0xABCD < 2 ^ 16
  /\ slaves (Wire sample_world) !! ina219_i2caddr (this sample_world)
     = Some sample_chip
  /\ exists w1 c1 w2,
       wireWriteRegister uno_0022 0x05 0xABCD sample_world = Ok (tt, w1)
       /\ wire_log (Wire w1) = [Sent 0x40 [0x05; 0xAB; 0xCD]]
       /\ slaves (Wire w1) !! ina219_i2caddr (this w1) = Some c1
       /\ registers c1 !! 0x05 = Some (0xAB, 0xCD)
       /\ wireReadRegister uno_0022 0x05 w1 = Ok (0xABCD, w2)
       /\ 0xABCD = 0xAB * 2 ^ 8 + 0xCD.
Proof.
  split; [lia|]. split; [reflexivity|].
  apply (write_then_read_round_trip uno_0022 0x05 0xABCD sample_world
           sample_chip); [lia|reflexivity].
Defined.

(** C7. After construction and before any calibration preset has been
    applied, the current and the power divider are both zero: they are
    zero in the constructed driver and stay zero through every sequence of
    calls that applies no preset; they are non-zero as soon as the
    sequence contains a call that applies one. *)
Theorem dividers_zero_until_preset
    (b : build) (addr : Z) (bus : TwoWire) (calls : list method)
    (w' : world) :
  run b calls {| Wire := bus; this := INA219_INA219 addr |} = Ok (tt, w') ->
  (ina219_currentDivider_mA (INA219_INA219 addr) = 0
   /\ ina219_powerDivider_mW (INA219_INA219 addr) = 0)
  /\ (existsb applies_preset calls = false ->
      ina219_currentDivider_mA (this w') = 0
      /\ ina219_powerDivider_mW (this w') = 0)
  /\ (existsb applies_preset calls = true ->
      ina219_currentDivider_mA (this w') <> 0
      /\ ina219_powerDivider_mW (this w') <> 0).
Proof.
  intros Hrun. split; [split; reflexivity|]. split.
  - intros Hnone. rewrite (run_keeps_this b _ _ _ Hnone Hrun).
    split; reflexivity.
  - intros Hsome. eapply run_with_preset; eassumption.
Qed.

Lemma dividers_zero_until_preset_witness :
  run uno idle_calls sample_world
  = Ok (tt, world_after (run uno idle_calls) sample_world)
  /\ existsb applies_preset idle_calls = false
  /\ ina219_currentDivider_mA
       (this (world_after (run uno idle_calls) sample_world)) = 0
  /\ ina219_powerDivider_mW
       (this (world_after (run uno idle_calls) sample_world)) = 0.
Proof.
  split; [vm_compute; reflexivity|]. split; [reflexivity|].
  apply (dividers_zero_until_preset uno 0x40 sample_bus idle_calls
           (world_after (run uno idle_calls) sample_world));
    [vm_compute; reflexivity|reflexivity].
Defined.

(** C8. [begin] enables the bus and applies the 32V/2A preset: it
    returns, and afterwards the bus is enabled, the current divider is 10,
    the power divider is 2, and the writes of 0x1000 to the calibration
    register and of the 32V/2A configuration word to the configuration
    register have been handed to the bus. *)
Theorem begin_applies_32V_2A (b : build) (w : world) :
  exists w',
    begin b w = Ok (tt, w')
    /\ begun (Wire w') = true
    /\ ina219_currentDivider_mA (this w') = 10
    /\ ina219_powerDivider_mW (this w') = 2
    /\ wire_log (Wire w')
       = wire_log (Wire w)
         ++ [register_write (ina219_i2caddr (this w))
               (to_uint8 (INA219_REG_CALIBRATION (header b))) 0x1000;
             register_write (ina219_i2caddr (this w))
               (to_uint8 (INA219_REG_CONFIG (header b)))
               (to_uint16 (config_32V_320mV (header b)))]
    /\ begin b w = ina219SetCalibration_32V_2A b (with_bus_begun w).
Proof.
  eexists. split.
  { rewrite begin_effect. apply ina219SetCalibration_32V_2A_effect. }
  rewrite log_after_two_writes.
  repeat split.
Qed.

(** C9. Once a calibration preset has been applied the current divider is
    one of 10, 25 and 20, hence not zero, and the division of
    [getCurrent_mA] is by a non-zero divisor: the divide-by-zero branch is
    not taken (with the dividers 10 and 25 the accessor returns).  With a
    current divider of zero, as the constructor leaves it, [getCurrent_mA]
    divides by zero whatever the register holds. *)
Theorem getCurrent_mA_division_guard (b : build) (w : world) :
  (forall p, exists w',
      apply_preset b p w = Ok (tt, w') /\ calibrated (this w') = true)
  /\ (calibrated (this w) = true ->
      ina219_currentDivider_mA (this w) <> 0
      /\ getCurrent_mA b w <> Undefined DivideByZero
      /\ (ina219_currentDivider_mA (this w) = 10
          \/ ina219_currentDivider_mA (this w) = 25 ->
          exists r w', getCurrent_mA b w = Ok (r, w')))
  /\ (ina219_currentDivider_mA (this w) = 0 ->
      getCurrent_mA b w = Undefined DivideByZero).
Proof.
  split; [|split].
  - intros p. eexists. split; [apply apply_preset_effect|].
    destruct p; reflexivity.
  - intros Hcal. apply calibrated_divider in Hcal.
    destruct (getCurrent_mA_scale b w) as (value & w1 & _ & Hv & ->).
    split; [lia|]. split.
    + pose proof (scale_current_guard (board b) _ value Hcal) as Hg.
      destruct (scale_current _ _ _) as [r|[]]; cbn [lift];
        congruence.
    + intros Hd. rewrite scale_current_spec by assumption.
      cbn [lift]. eauto.
  - intros Hzero.
    destruct (getCurrent_mA_scale b w) as (value & w1 & _ & _ & ->).
    rewrite Hzero, scale_current_zero_divider. reflexivity.
Qed.

Lemma getCurrent_mA_division_guard_witness :
  (calibrated (this quiet_world) = true
   /\ getCurrent_mA due quiet_world <> Undefined DivideByZero)
  /\ (ina219_currentDivider_mA (this sample_world) = 0
      /\ getCurrent_mA uno sample_world = Undefined DivideByZero).
Proof.
  split.
  - split; [reflexivity|].
    apply (getCurrent_mA_division_guard due quiet_world). reflexivity.
  - split; [reflexivity|].
    apply (getCurrent_mA_division_guard uno sample_world). reflexivity.
Defined.

(** C10. Whatever the shunt voltage register holds, [getShuntVoltage_mV]
    returns a value between 0 and 649; a raw value with the sign bit set
    (at least 0x8000 as unsigned, a negative shunt reading) is returned
    as 0, so the result is never negative. *)
Theorem getShuntVoltage_mV_never_negative (b : build) (w : world) :
  exists r w',
    getShuntVoltage_mV b w = Ok (r, w')
    /\ 0 <= r <= 649
    /\ forall v,
         register_word w (INA219_REG_SHUNTVOLTAGE (header b)) = Some v ->
         2 ^ 15 <= v < 2 ^ 16 ->
         to_int16 v < 0 /\ r = 0.
Proof.
  destruct (getShuntVoltage_mV_bounds b w) as (r & w' & Hrun & Hr).
  exists r, w'. split; [assumption|]. split; [assumption|].
  intros v Hword Hv. split.
  - rewrite to_int16_high by assumption. lia.
  - pose proof (getShuntVoltage_mV_word b v w Hword) as Hret.
    unfold returns in Hret. rewrite Hrun in Hret.
    destruct (Z.leb_spec 650 v); [|lia].
    injection Hret; [trivial|lia].
Qed.

Lemma getShuntVoltage_mV_never_negative_witness :
  register_word sample_world (INA219_REG_SHUNTVOLTAGE (header uno))
  = Some 0x8001
  /\ 2 ^ 15 <= 0x8001 < 2 ^ 16
  /\ returns (getShuntVoltage_mV uno) sample_world = Ok 0.
Proof.
  split; [reflexivity|]. split; [lia|].
  destruct (getShuntVoltage_mV_never_negative uno sample_world)
    as (r & w' & Hrun & _ & Hneg).
  destruct (Hneg 0x8001) as [_ Hr]; [reflexivity|lia|].
  unfold returns. rewrite Hrun, Hr. reflexivity.
Defined.

(* ===================================================================== *)
(** * Reads leave the chip and the driver alone *)
(* ===================================================================== *)

Section Reads.

Variable b : build.
Local Abbreviation h := (header b).

(** [wireReadRegister] always ends in the same world, whatever it read. *)
Lemma wireReadRegister_effect (reg : Z) (w : world) :
  exists value,
    wireReadRegister b reg w = Ok (value, after_register_read reg w).
Proof.
  unfold wireReadRegister, after_register_read.
  destruct (100 <=? ARDUINO_version b); run_wire;
    change (to_uint8 2) with 2; change (Z.to_nat 2) with 2%nat;
    (destruct (deliver _ _ _ !! _) as [c|];
     [unfold chip_transmit; destruct (chip_bytes c (pointer c)) as [hi lo]|]);
    cbn [take Wire this begun txAddress txBuffer rxBuffer slaves wire_log];
    rewrite <- app_assoc; eexists; reflexivity.
Qed.

Lemma register_word_after_read (reg other : Z) (w : world) :
  register_word (after_register_read reg w) other = register_word w other.
Proof.
  unfold register_word, after_register_read, deliver.
  cbn [Wire this slaves].
  destruct (slaves (Wire w) !! ina219_i2caddr (this w)) as [c|] eqn:Hc.
  - rewrite lookup_insert_eq. reflexivity.
  - rewrite Hc. reflexivity.
Qed.

(** A call that only reads ends in the world of its one register read. *)
Lemma invoke_read_world (m : method) (reg : Z) (w w' : world) :
  register_read h m = Some reg ->
  invoke b m w = Ok (tt, w') ->
  w' = after_register_read (to_uint8 reg) w.
Proof.
  intros Hm.
  destruct m; cbn [register_read] in Hm; try discriminate;
    injection Hm as <-; cbn [invoke];
    unfold discard, getBusVoltage_raw, getShuntVoltage_raw, getCurrent_raw,
      getShuntVoltage_mV, getBusVoltage_V, getCurrent_mA, bind;
    match goal with
    | |- context [wireReadRegister b ?r w] =>
        destruct (wireReadRegister_effect r w) as [value ->]
    end;
    cbv zeta; unfold ret, get_this;
    repeat match goal with
           | |- context [lift ?r _] => destruct r; cbn [lift]
           end;
    intros E; now (discriminate E || injection E as <-).
Qed.

Lemma register_word_absent (reg : Z) (w : world) :
  register_word w reg = None ->
  slaves (Wire w) !! ina219_i2caddr (this w) = None.
Proof.
  unfold register_word.
  destruct (slaves (Wire w) !! ina219_i2caddr (this w)) as [c|];
    [|reflexivity].
  destruct (chip_bytes c (to_uint8 reg)). discriminate.
Qed.

Lemma wireReadRegister_absent (reg : Z) (w : world) :
  slaves (Wire w) !! ina219_i2caddr (this w) = None ->
  returns (wireReadRegister b reg) w = Ok (nothing_received b).
Proof.
  intros Hc. unfold returns, wireReadRegister, nothing_received.
  destruct (100 <=? ARDUINO_version b); run_wire;
    unfold deliver; rewrite Hc, Hc;
    cbn [Wire this begun txAddress txBuffer rxBuffer slaves wire_log];
    reflexivity.
Qed.

(** What a register read returns depends on the word the chip holds in
    that register and on nothing else in the world. *)
Lemma wireReadRegister_same (reg : Z) (w1 w2 : world) :
  register_word w1 reg = register_word w2 reg ->
  returns (wireReadRegister b reg) w1 = returns (wireReadRegister b reg) w2.
Proof.
  intros Hsame.
  destruct (register_word w1 reg) as [v|] eqn:H1; symmetry in Hsame.
  - destruct (wireReadRegister_value b _ _ _ H1) as (w1' & E1 & _).
    destruct (wireReadRegister_value b _ _ _ Hsame) as (w2' & E2 & _).
    unfold returns. rewrite E1, E2. reflexivity.
  - rewrite !wireReadRegister_absent by eauto using register_word_absent.
    reflexivity.
Qed.

(** The same for every read-only call, the dividers included. *)
Lemma read_value_same (m : method) (w1 w2 : world) :
  same_registers w1 w2 ->
  this w1 = this w2 ->
  returns (read_value b m) w1 = returns (read_value b m) w2.
Proof.
  intros Hregs Hthis.
  assert (Hread : forall reg (A : Type) (k : Z -> M A),
             (forall v u1 u2, this u1 = this u2 ->
                              returns (k v) u1 = returns (k v) u2) ->
             returns (bind (wireReadRegister b (to_uint8 reg)) k) w1
             = returns (bind (wireReadRegister b (to_uint8 reg)) k) w2).
  { intros reg A k Hk.
    pose proof (wireReadRegister_same (to_uint8 reg) w1 w2 (Hregs _)) as E.
    unfold returns in E |- *. unfold bind.
    destruct (wireReadRegister_effect (to_uint8 reg) w1) as [v1 E1].
    destruct (wireReadRegister_effect (to_uint8 reg) w2) as [v2 E2].
    rewrite E1, E2 in *. injection E as <-.
    apply (Hk v1). exact Hthis. }
  destruct m; cbn [read_value]; try reflexivity;
    try (unfold getBusVoltage_raw, getShuntVoltage_raw, getCurrent_raw,
           getShuntVoltage_mV, getBusVoltage_V;
         apply Hread; intros; reflexivity).
  - rewrite <- (to_uint8_idem reg).
    pose proof (Hread (to_uint8 reg) Z ret) as E.
    unfold returns, bind, ret in E |- *.
    destruct (wireReadRegister b _ w1) as [[? ?]|?],
             (wireReadRegister b _ w2) as [[? ?]|?];
      apply E; reflexivity.
  - unfold getCurrent_mA. apply Hread. intros v u1 u2 Hu.
    unfold returns, bind, get_this. rewrite Hu.
    destruct (fdiv _ _ _) as [q|f]; cbn [lift]; [|reflexivity].
    destruct (float_to_int16 _); reflexivity.
Qed.

End Reads.

(** X1. A call that only reads (the six accessors and [wireReadRegister])
    hands the bus exactly one frame with the register address and one
    request for two bytes, both to the address of the driver; it changes
    neither the fields of the driver nor any word the chip holds. *)
Theorem read_call_effect
    (b : build) (m : method) (reg : Z) (w w' : world) :
  register_read (header b) m = Some reg ->
  invoke b m w = Ok (tt, w') ->
  this w' = this w
  /\ same_registers w' w
  /\ wire_log (Wire w')
     = wire_log (Wire w)
       ++ [Sent (ina219_i2caddr (this w)) [to_uint8 reg];
           Requested (ina219_i2caddr (this w)) 2].
Proof.
  intros Hm Hrun.
  rewrite (invoke_read_world b m reg w w' Hm Hrun).
  split; [reflexivity|]. split.
  - intros other. apply register_word_after_read.
  - cbn [after_register_read Wire wire_log]. rewrite to_uint8_idem.
    reflexivity.
Qed.

Lemma read_call_effect_witness :
  register_read (header uno) call_getCurrent_mA = Some 0x04
  /\ invoke uno call_getCurrent_mA scenario_world
     = Ok (tt, world_after (invoke uno call_getCurrent_mA) scenario_world)
  /\ wire_log (Wire (world_after (invoke uno call_getCurrent_mA)
                       scenario_world))
     = wire_log (Wire scenario_world)
       ++ [Sent 0x40 [0x04]; Requested 0x40 2].
Proof.
  split; [reflexivity|]. split; [vm_compute; reflexivity|].
  apply (read_call_effect uno call_getCurrent_mA 0x04 scenario_world
           (world_after (invoke uno call_getCurrent_mA) scenario_world));
    [reflexivity|vm_compute; reflexivity].
Defined.

Section Polling.

Variable b : build.

Lemma run_reads_world (calls : list method) (w w' : world) :
  forallb (is_read (header b)) calls = true ->
  run b calls w = Ok (tt, w') ->
  this w' = this w /\ same_registers w' w.
Proof.
  revert w. induction calls as [|m calls IH]; intros w Hall Hrun.
  - injection Hrun as <-. split; [reflexivity|]. intros reg. reflexivity.
  - cbn [forallb] in Hall. apply andb_prop in Hall as [Hm Hrest].
    destruct (run_cons b _ _ _ _ Hrun) as (w1 & H1 & H2).
    unfold is_read in Hm.
    destruct (register_read (header b) m) as [reg|] eqn:Hreg;
      [|discriminate].
    rewrite (invoke_read_world b m reg w w1 Hreg H1) in H2.
    destruct (IH _ Hrest H2) as [Hthis Hregs].
    split; [exact Hthis|].
    intros other. rewrite Hregs. apply register_word_after_read.
Qed.

End Polling.

(** X2. Polling does not disturb what is measured: after any sequence of
    read-only calls that returned, every accessor returns what it would
    have returned before the sequence. *)
Theorem polling_is_stable
    (b : build) (calls : list method) (m : method) (w w' : world) :
  forallb (is_read (header b)) calls = true ->
  run b calls w = Ok (tt, w') ->
  returns (read_value b m) w' = returns (read_value b m) w.
Proof.
  intros Hall Hrun.
  destruct (run_reads_world b calls w w' Hall Hrun) as [Hthis Hregs].
  apply read_value_same; assumption.
Qed.

Lemma polling_is_stable_witness :
  forallb (is_read (header due))
    [call_getShuntVoltage_mV; call_getCurrent_mA; call_getBusVoltage_V] = true
  /\ run due [call_getShuntVoltage_mV; call_getCurrent_mA;
              call_getBusVoltage_V] quiet_world
     = Ok (tt, world_after
                 (run due [call_getShuntVoltage_mV; call_getCurrent_mA;
                           call_getBusVoltage_V]) quiet_world)
  /\ returns (read_value due call_getCurrent_raw)
       (world_after
          (run due [call_getShuntVoltage_mV; call_getCurrent_mA;
                    call_getBusVoltage_V]) quiet_world)
     = returns (read_value due call_getCurrent_raw) quiet_world.
Proof.
  split; [reflexivity|]. split; [vm_compute; reflexivity|].
  apply (polling_is_stable due
           [call_getShuntVoltage_mV; call_getCurrent_mA; call_getBusVoltage_V]
           call_getCurrent_raw quiet_world);
    [reflexivity|vm_compute; reflexivity].
Defined.

(* ===================================================================== *)
(** * Writes touch one register *)
(* ===================================================================== *)

Lemma register_word_after_write_other (reg value other : Z) (w : world) :
  to_uint8 reg <> to_uint8 other ->
  register_word (after_register_write reg value w) other
  = register_word w other.
Proof.
  intros Hne. unfold register_word, after_register_write, deliver.
  cbn [Wire this slaves].
  destruct (slaves (Wire w) !! ina219_i2caddr (this w)) as [c|] eqn:Hc.
  - rewrite lookup_insert_eq, chip_bytes_elsewhere by assumption.
    reflexivity.
  - rewrite Hc. reflexivity.
Qed.

(** X3. Two register writes in a row, on a bus with a chip at the address
    of the driver: the register written last holds the value written
    last; when the two register addresses differ the first register holds
    the first value, and every other register holds what it held
    before. *)
Theorem writes_are_isolated
    (b : build) (r1 x1 r2 x2 : Z) (w : world) (c : chip) :
  slaves (Wire w) !! ina219_i2caddr (this w) = Some c ->
  0 <= x1 < 2 ^ 16 ->
  0 <= x2 < 2 ^ 16 ->
  exists w2,
    bind (wireWriteRegister b r1 x1) (fun _ => wireWriteRegister b r2 x2) w
    = Ok (tt, w2)
    /\ register_word w2 r2 = Some x2
    /\ (to_uint8 r1 <> to_uint8 r2 -> register_word w2 r1 = Some x1)
    /\ (forall other,
          to_uint8 other <> to_uint8 r1 ->
          to_uint8 other <> to_uint8 r2 ->
          register_word w2 other = register_word w other).
Proof.
  intros Hc Hx1 Hx2.
  exists (after_register_write r2 x2 (after_register_write r1 x1 w)).
  pose proof (after_register_write_slave r1 x1 w c Hc) as Hc1.
  split.
  { unfold bind. rewrite !wireWriteRegister_effect. reflexivity. }
  split; [exact (register_word_written r2 x2 _ _ Hc1 Hx2)|].
  split.
  - intros Hne.
    rewrite register_word_after_write_other by congruence.
    exact (register_word_written r1 x1 _ _ Hc Hx1).
  - intros other Hn1 Hn2.
    rewrite !register_word_after_write_other by congruence.
    reflexivity.
Qed.

Lemma writes_are_isolated_witness :
  slaves (Wire sample_world) !! ina219_i2caddr (this sample_world)
  = Some sample_chip
  /\ 0 <= 0x1234 < 2 ^ 16
  /\ 0 <= 0xBEEF < 2 ^ 16
  /\ exists w2,
       bind (wireWriteRegister uno 0x05 0x1234)
            (fun _ => wireWriteRegister uno 0x00 0xBEEF) sample_world
       = Ok (tt, w2)
       /\ register_word w2 0x00 = Some 0xBEEF
       /\ (to_uint8 0x05 <> to_uint8 0x00 ->
           register_word w2 0x05 = Some 0x1234)
       /\ (forall other,
             to_uint8 other <> to_uint8 0x05 ->
             to_uint8 other <> to_uint8 0x00 ->
             register_word w2 other = register_word sample_world other).
Proof.
  split; [reflexivity|]. split; [lia|]. split; [lia|].
  apply (writes_are_isolated uno 0x05 0x1234 0x00 0xBEEF sample_world
           sample_chip); [reflexivity|lia|lia].
Defined.

(** X4. Writing back what was just read changes nothing: when the chip
    holds a 16-bit word in a register, [wireReadRegister] followed by
    [wireWriteRegister] of the value read leaves every register with the
    word it held. *)
Theorem read_then_write_back
    (b : build) (reg v : Z) (w : world) :
  register_word w reg = Some v ->
  0 <= v < 2 ^ 16 ->
  exists w2,
    bind (wireReadRegister b reg)
         (fun value => wireWriteRegister b reg value) w
    = Ok (tt, w2)
    /\ same_registers w2 w
    /\ this w2 = this w.
Proof.
  intros Hword Hv.
  destruct (wireReadRegister_effect b reg w) as [value Hread].
  destruct (wireReadRegister_value b _ _ _ Hword) as (w1 & Hread' & _).
  rewrite Hread in Hread'. injection Hread' as -> <-.
  rewrite to_uint16_small in Hread by assumption.
  exists (after_register_write reg v (after_register_read reg w)).
  split.
  { unfold bind. rewrite Hread, wireWriteRegister_effect. reflexivity. }
  split; [|reflexivity].
  assert (Hword1 : register_word (after_register_read reg w) reg = Some v)
    by (rewrite register_word_after_read; exact Hword).
  intros other.
  destruct (Z.eq_dec (to_uint8 reg) (to_uint8 other)) as [Heq|Hne].
  - assert (Ho : forall u, register_word u other = register_word u reg).
    { intros u. rewrite <- (register_word_to_uint8 u other), <- Heq.
      apply register_word_to_uint8. }
    rewrite !Ho, Hword. unfold register_word in Hword1.
    destruct (slaves (Wire (after_register_read reg w))
                !! ina219_i2caddr (this (after_register_read reg w)))
      as [c1|] eqn:Hc1; [|discriminate].
    exact (register_word_written reg v _ c1 Hc1 Hv).
  - rewrite register_word_after_write_other by assumption.
    apply register_word_after_read.
Qed.

Lemma read_then_write_back_witness :
  register_word sample_world 0x02 = Some 0x1F28
  /\ 0 <= 0x1F28 < 2 ^ 16
  /\ exists w2,
       bind (wireReadRegister uno_0022 0x02)
            (fun value => wireWriteRegister uno_0022 0x02 value) sample_world
       = Ok (tt, w2)
       /\ same_registers w2 sample_world
       /\ this w2 = this sample_world.
Proof.
  split; [reflexivity|]. split; [lia|].
  apply (read_then_write_back uno_0022 0x02 0x1F28 sample_world);
    [reflexivity|lia].
Defined.

(* ===================================================================== *)
(** * Presets, one after the other *)
(* ===================================================================== *)

Section PresetStores.

Variable b : build.
Local Abbreviation h := (header b).

Lemma register_word_after_preset (p : preset) (other : Z) (w w' : world) :
  to_uint8 other <> to_uint8 (INA219_REG_CALIBRATION h) ->
  to_uint8 other <> to_uint8 (INA219_REG_CONFIG h) ->
  apply_preset b p w = Ok (tt, w') ->
  register_word w' other = register_word w other.
Proof.
  intros Hcal Hcfg Hrun.
  rewrite apply_preset_effect in Hrun. injection Hrun as <-.
  rewrite !register_word_after_write_other
    by (rewrite to_uint8_idem; congruence).
  reflexivity.
Qed.

(** A call that applies a preset is that preset, on the world itself or,
    for [begin], on the world with the bus enabled. *)
Lemma invoke_preset_applied (m : method) (p : preset) (w : world) :
  preset_applied m = Some p ->
  invoke b m w = apply_preset b p w
  \/ invoke b m w = apply_preset b p (with_bus_begun w).
Proof.
  destruct m; cbn [preset_applied]; try discriminate;
    intros [= <-]; auto.
Qed.

Lemma invoke_preset_registers
    (m : method) (p : preset) (other : Z) (w w' : world) :
  preset_applied m = Some p ->
  to_uint8 other <> to_uint8 (INA219_REG_CALIBRATION h) ->
  to_uint8 other <> to_uint8 (INA219_REG_CONFIG h) ->
  invoke b m w = Ok (tt, w') ->
  register_word w' other = register_word w other
  /\ ina219_currentDivider_mA (this w') = documented_currentDivisor p
  /\ ina219_powerDivider_mW (this w') = documented_powerDivisor p
  /\ ina219_i2caddr (this w') = ina219_i2caddr (this w).
Proof.
  intros Hm Hcal Hcfg Hrun.
  destruct (invoke_preset_applied m p w Hm) as [E|E]; rewrite E in Hrun.
  - split; [exact (register_word_after_preset p other _ _ Hcal Hcfg Hrun)|].
    rewrite apply_preset_effect in Hrun. injection Hrun as <-.
    repeat split.
  - split.
    + rewrite (register_word_after_preset p other _ _ Hcal Hcfg Hrun).
      reflexivity.
    + rewrite apply_preset_effect in Hrun. injection Hrun as <-.
      repeat split.
Qed.

End PresetStores.

(** X5. A preset (and [begin]) writes the calibration and the
    configuration register and nothing else: every register with another
    address holds afterwards the word it held before, so the measurement
    registers survive a change of preset. *)
Theorem preset_keeps_other_registers
    (b : build) (m : method) (p : preset) (other : Z) (w w' : world) :
  preset_applied m = Some p ->
  to_uint8 other <> to_uint8 (INA219_REG_CALIBRATION (header b)) ->
  to_uint8 other <> to_uint8 (INA219_REG_CONFIG (header b)) ->
  invoke b m w = Ok (tt, w') ->
  register_word w' other = register_word w other.
Proof.
  intros Hm Hcal Hcfg Hrun.
  apply (invoke_preset_registers b m p other w w' Hm Hcal Hcfg Hrun).
Qed.

Lemma preset_keeps_other_registers_witness :
  preset_applied call_ina219SetCalibration_16V_400mA = Some Preset_16V_400mA
  /\ to_uint8 0x02 <> to_uint8 (INA219_REG_CALIBRATION (header uno))
  /\ to_uint8 0x02 <> to_uint8 (INA219_REG_CONFIG (header uno))
  /\ invoke uno call_ina219SetCalibration_16V_400mA sample_world
     = Ok (tt, world_after (invoke uno call_ina219SetCalibration_16V_400mA)
                 sample_world)
  /\ register_word
       (world_after (invoke uno call_ina219SetCalibration_16V_400mA)
          sample_world) 0x02
     = register_word sample_world 0x02.
Proof.
  split; [reflexivity|]. split; [vm_compute; lia|]. split; [vm_compute; lia|].
  split; [vm_compute; reflexivity|].
  apply (preset_keeps_other_registers uno
           call_ina219SetCalibration_16V_400mA Preset_16V_400mA 0x02
           sample_world);
    [reflexivity|vm_compute; lia|vm_compute; lia|vm_compute; reflexivity].
Defined.

(** X6. The usual use: [begin], or one of the presets 32V/2A and 32V/1A,
    followed by [getCurrent_mA].  When the current register does not share
    its address with the calibration or the configuration register and
    holds the raw value [u], the accessor returns the truncating quotient
    of [2 v + d] by [2 d], [v] the signed value of [u] and [d] the divider
    of the preset (10 for [begin] and 32V/2A, 25 for 32V/1A). *)
Theorem preset_then_getCurrent_mA
    (b : build) (m : method) (p : preset) (u : Z) (w : world) :
  preset_applied m = Some p ->
  p <> Preset_16V_400mA ->
  to_uint8 (INA219_REG_CURRENT (header b))
  <> to_uint8 (INA219_REG_CALIBRATION (header b)) ->
  to_uint8 (INA219_REG_CURRENT (header b))
  <> to_uint8 (INA219_REG_CONFIG (header b)) ->
  register_word w (INA219_REG_CURRENT (header b)) = Some u ->
  0 <= u < 2 ^ 16 ->
  returns (bind (invoke b m) (fun _ => getCurrent_mA b)) w
  = Ok (Z.quot (2 * to_int16 u + documented_currentDivisor p)
               (2 * documented_currentDivisor p)).
Proof.
  intros Hm Hp Hcal Hcfg Hword Hu.
  assert (Hreturns : exists w1, invoke b m w = Ok (tt, w1)).
  { destruct (invoke_preset_applied b m p w Hm) as [-> | ->];
      rewrite apply_preset_effect; eauto. }
  destruct Hreturns as [w1 Hrun].
  destruct (invoke_preset_registers b m p _ w w1 Hm Hcal Hcfg Hrun)
    as (Hsame & Hd & _).
  rewrite Hword in Hsame.
  pose proof (getCurrent_mA_word b u w1 Hsame Hu) as Hret.
  unfold returns, bind in Hret |- *. rewrite Hrun, Hret, Hd.
  assert (Hd' : documented_currentDivisor p = 10
                \/ documented_currentDivisor p = 25)
    by (destruct p; cbn; tauto).
  rewrite scale_current_spec by assumption.
  rewrite spec_current_mA_quot by lia.
  reflexivity.
Qed.

Lemma preset_then_getCurrent_mA_witness :
  preset_applied call_begin = Some Preset_32V_2A
  /\ Preset_32V_2A <> Preset_16V_400mA
  /\ to_uint8 (INA219_REG_CURRENT (header due))
     <> to_uint8 (INA219_REG_CALIBRATION (header due))
  /\ to_uint8 (INA219_REG_CURRENT (header due))
     <> to_uint8 (INA219_REG_CONFIG (header due))
  /\ register_word sample_world (INA219_REG_CURRENT (header due))
     = Some 0xFF9C
  /\ 0 <= 0xFF9C < 2 ^ 16
  /\ returns (bind (invoke due call_begin) (fun _ => getCurrent_mA due))
       sample_world
     = Ok (-9).
Proof.
  split; [reflexivity|]. split; [discriminate|].
  split; [vm_compute; lia|]. split; [vm_compute; lia|].
  split; [reflexivity|]. split; [lia|].
  apply (preset_then_getCurrent_mA due call_begin Preset_32V_2A 0xFF9C
           sample_world);
    first [reflexivity | discriminate | lia | (vm_compute; lia)].
Defined.

Section LastPreset.

Variable b : build.
Local Abbreviation h := (header b).

Lemma deliver_deliver (address : Z) (f1 f2 : list Z) (s : gmap Z chip) :
  deliver address f2 (deliver address f1 s)
  = match s !! address with
    | Some c => <[address := chip_receive f2 (chip_receive f1 c)]> s
    | None => s
    end.
Proof.
  unfold deliver. destruct (s !! address) as [c|] eqn:Hc.
  - rewrite lookup_insert_eq, insert_insert_eq. reflexivity.
  - rewrite Hc. reflexivity.
Qed.

(** The slaves after a preset. *)
Lemma slaves_after_preset (p : preset) (w w' : world) :
  apply_preset b p w = Ok (tt, w') ->
  slaves (Wire w')
  = deliver (ina219_i2caddr (this w))
      (queued_frame (to_uint8 (INA219_REG_CONFIG h))
                    (to_uint16 (documented_config h p)))
      (deliver (ina219_i2caddr (this w))
         (queued_frame (to_uint8 (INA219_REG_CALIBRATION h))
                       (to_uint16 (documented_calibration p)))
         (slaves (Wire w)))
  /\ this w' = {| ina219_i2caddr := ina219_i2caddr (this w);
                  ina219_currentDivider_mA := documented_currentDivisor p;
                  ina219_powerDivider_mW := documented_powerDivisor p |}.
Proof.
  rewrite apply_preset_effect. intros [= <-]. split; reflexivity.
Qed.

(** Two register writes of a preset after two of another leave the chip
    as the later two alone do. *)
Lemma chip_receive_overwrite (r1 r2 a1 a2 b1 b2 : Z) (c : chip) :
  chip_receive (queued_frame r2 b2)
    (chip_receive (queued_frame r1 b1)
       (chip_receive (queued_frame r2 a2)
          (chip_receive (queued_frame r1 a1) c)))
  = chip_receive (queued_frame r2 b2) (chip_receive (queued_frame r1 b1) c).
Proof.
  unfold queued_frame. cbn [chip_receive registers pointer].
  f_equal. apply map_eq. intros i.
  rewrite !lookup_insert. repeat case_decide; reflexivity.
Qed.

End LastPreset.

Lemma presets_total (b : build) (p : preset) (w : world) :
  exists w', apply_preset b p w = Ok (tt, w').
Proof. rewrite apply_preset_effect. eauto. Qed.

(** X7. The preset applied last is the one in force: applying a preset
    after another leaves the fields of the driver and the registers of
    every chip on the bus exactly as applying the second one alone
    does. *)
Theorem last_preset_wins (b : build) (p q : preset) (w : world) :
  exists w1 w2 w3,
    apply_preset b p w = Ok (tt, w1)
    /\ apply_preset b q w1 = Ok (tt, w2)
    /\ apply_preset b q w = Ok (tt, w3)
    /\ this w2 = this w3
    /\ slaves (Wire w2) = slaves (Wire w3).
Proof.
  destruct (presets_total b p w) as [w1 H1].
  destruct (presets_total b q w1) as [w2 H2].
  destruct (presets_total b q w) as [w3 H3].
  exists w1, w2, w3. repeat (split; [assumption|]).
  destruct (slaves_after_preset b p w w1 H1) as [S1 T1].
  destruct (slaves_after_preset b q w1 w2 H2) as [S2 T2].
  destruct (slaves_after_preset b q w w3 H3) as [S3 T3].
  rewrite T1 in T2, S2. cbn [ina219_i2caddr] in T2, S2.
  split; [congruence|].
  rewrite S2, S3, S1, !deliver_deliver.
  destruct (slaves (Wire w) !! ina219_i2caddr (this w)) as [c|] eqn:Hc.
  - rewrite lookup_insert_eq, insert_insert_eq.
    rewrite chip_receive_overwrite. reflexivity.
  - rewrite Hc. reflexivity.
Qed.

(* ===================================================================== *)
(** * Histories: dividers, address and traffic *)
(* ===================================================================== *)

Section Traffic.

Variable b : build.
Local Abbreviation h := (header b).

Lemma preset_applied_none (m : method) :
  preset_applied m = None -> applies_preset m = false.
Proof. destruct m; cbn; congruence. Qed.

Lemma invoke_dividers (m : method) (w w' : world) :
  invoke b m w = Ok (tt, w') ->
  (ina219_currentDivider_mA (this w'), ina219_powerDivider_mW (this w'))
  = match preset_applied m with
    | Some p => (documented_currentDivisor p, documented_powerDivisor p)
    | None => (ina219_currentDivider_mA (this w),
               ina219_powerDivider_mW (this w))
    end.
Proof.
  intros Hrun. destruct (preset_applied m) as [p|] eqn:Hm.
  - destruct (invoke_preset_applied b m p w Hm) as [E|E];
      rewrite E, apply_preset_effect in Hrun; injection Hrun as <-;
      reflexivity.
  - rewrite (keeps_invoke b m (preset_applied_none m Hm) _ _ _ Hrun).
    reflexivity.
Qed.

Lemma run_dividers (calls : list method) (w w' : world) :
  run b calls w = Ok (tt, w') ->
  (ina219_currentDivider_mA (this w'), ina219_powerDivider_mW (this w'))
  = match last_preset calls with
    | Some p => (documented_currentDivisor p, documented_powerDivisor p)
    | None => (ina219_currentDivider_mA (this w),
               ina219_powerDivider_mW (this w))
    end.
Proof.
  revert w. induction calls as [|m calls IH]; intros w Hrun.
  - injection Hrun as <-. reflexivity.
  - destruct (run_cons b _ _ _ _ Hrun) as (w1 & H1 & H2).
    rewrite (IH _ H2). cbn [last_preset].
    destruct (last_preset calls); [reflexivity|].
    exact (invoke_dividers m w w1 H1).
Qed.



End Traffic.

(** X8. After any sequence of calls on a freshly constructed driver, the
    two dividers are those of the preset applied last ([begin] counting
    as 32V/2A): (10, 2), (25, 1) or (20, 1); they are (0, 0) when no
    preset was applied. *)
Theorem dividers_follow_last_preset
    (b : build) (addr : Z) (bus : TwoWire) (calls : list method)
    (w' : world) :
  run b calls {| Wire := bus; this := INA219_INA219 addr |} = Ok (tt, w') ->
  (ina219_currentDivider_mA (this w'), ina219_powerDivider_mW (this w'))
  = dividers_of (last_preset calls).
Proof.
  intros Hrun. rewrite (run_dividers b calls _ _ Hrun).
  unfold dividers_of. destruct (last_preset calls); reflexivity.
Qed.

Lemma dividers_follow_last_preset_witness :
  run due [call_begin; call_getCurrent_mA; call_ina219SetCalibration_32V_1A;
           call_getBusVoltage_V] sample_world
  = Ok (tt, world_after
              (run due [call_begin; call_getCurrent_mA;
                        call_ina219SetCalibration_32V_1A;
                        call_getBusVoltage_V]) sample_world)
  /\ (ina219_currentDivider_mA
        (this (world_after
                 (run due [call_begin; call_getCurrent_mA;
                           call_ina219SetCalibration_32V_1A;
                           call_getBusVoltage_V]) sample_world)),
      ina219_powerDivider_mW
        (this (world_after
                 (run due [call_begin; call_getCurrent_mA;
                           call_ina219SetCalibration_32V_1A;
                           call_getBusVoltage_V]) sample_world)))
     = (25, 1).
Proof.
  split; [vm_compute; reflexivity|].
  apply (dividers_follow_last_preset due 0x40 sample_bus
           [call_begin; call_getCurrent_mA; call_ina219SetCalibration_32V_1A;
            call_getBusVoltage_V]).
  vm_compute; reflexivity.
Defined.



(* ===================================================================== *)
(** * What the accessors return, one against the other *)
(* ===================================================================== *)

Section Values.

Variable b : build.
Local Abbreviation h := (header b).

Lemma raw_accessor_word (v : Z) (w : world) :
  0 <= v < 2 ^ 16 ->
  (register_word w (INA219_REG_SHUNTVOLTAGE h) = Some v ->
   returns (getShuntVoltage_raw b) w = Ok (to_int16 v))
  /\ (register_word w (INA219_REG_CURRENT h) = Some v ->
      returns (getCurrent_raw b) w = Ok (to_int16 v)).
Proof.
  intros Hv. split; intros Hword;
    destruct (read_then b _ _ _ Hword Hv) as (w1 & _ & Hk);
    unfold returns, getShuntVoltage_raw, getCurrent_raw;
    rewrite Hk; reflexivity.
Qed.

(** The truncating quotient of [2 v + d] by [2 d] against [v / d]. *)
Lemma quot_half_up (v d : Z) :
  0 < d ->
  let r := Z.quot (2 * v + d) (2 * d) in
  - 3 * d < 2 * (v - d * r) < d
  /\ (0 <= v -> - d <= 2 * (v - d * r))
  /\ (r = 0 <-> - 3 * d < 2 * v < d).
Proof.
  intros Hd r.
  pose proof (Z.quot_rem' (2 * v + d) (2 * d)) as Hqr. fold r in Hqr.
  assert (Hband : r = 0 <-> - 3 * d < 2 * v < d).
  { unfold r. rewrite Z.quot_small_iff by lia. lia. }
  destruct (Z_le_gt_dec 0 (2 * v + d)) as [Hpos|Hneg].
  - pose proof (Z.rem_bound_pos (2 * v + d) (2 * d) Hpos ltac:(lia)).
    split; [lia|]. split; [lia|exact Hband].
  - pose proof (Z.rem_bound_pos (- (2 * v + d)) (2 * d)
                  ltac:(lia) ltac:(lia)) as Hrem.
    rewrite Z.rem_opp_l in Hrem by lia.
    split; [lia|]. split; [lia|exact Hband].
Qed.

End Values.

(** X10. [getShuntVoltage_mV] against [getShuntVoltage_raw] on the same
    register content: the raw accessor returns the signed value; the
    millivolt accessor returns the same number when it lies in [0, 649]
    and 0 otherwise, so every negative shunt reading is reported as 0. *)
Theorem shunt_mV_versus_raw (b : build) (w : world) (v : Z) :
  register_word w (INA219_REG_SHUNTVOLTAGE (header b)) = Some v ->
  0 <= v < 2 ^ 16 ->
  returns (getShuntVoltage_raw b) w = Ok (to_int16 v)
  /\ returns (getShuntVoltage_mV b) w
     = Ok (if (0 <=? to_int16 v) && (to_int16 v <? 650)
           then to_int16 v else 0)
  /\ (to_int16 v < 0 -> returns (getShuntVoltage_mV b) w = Ok 0).
Proof.
  intros Hword Hv.
  split; [now apply raw_accessor_word|].
  rewrite (getShuntVoltage_mV_word b _ _ Hword Hv).
  destruct (Z_lt_ge_dec v (2 ^ 15)) as [Hlow|Hhigh].
  - rewrite to_int16_small by lia.
    destruct (Z.leb_spec 650 v), (Z.leb_spec 0 v), (Z.ltb_spec v 650);
      cbn [andb]; split; (reflexivity || lia).
  - rewrite to_int16_high by lia.
    destruct (Z.leb_spec 650 v), (Z.leb_spec 0 (v - 2 ^ 16));
      cbn [andb]; split; (reflexivity || lia).
Qed.

Lemma shunt_mV_versus_raw_witness :
  register_word sample_world (INA219_REG_SHUNTVOLTAGE (header uno))
  = Some 0x8001
  /\ 0 <= 0x8001 < 2 ^ 16
  /\ returns (getShuntVoltage_raw uno) sample_world = Ok (-32767)
  /\ to_int16 0x8001 < 0
  /\ returns (getShuntVoltage_mV uno) sample_world = Ok 0.
Proof.
  split; [reflexivity|]. split; [lia|].
  destruct (shunt_mV_versus_raw uno sample_world 0x8001)
    as (Hraw & _ & Hneg); [reflexivity|lia|].
  split; [exact Hraw|].
  split; [vm_compute; reflexivity|].
  apply Hneg. vm_compute. reflexivity.
Defined.

(** X11. [getCurrent_mA] against [getCurrent_raw] on the same register
    content, with the divider [d] of the 32V/2A or the 32V/1A preset:
    the milliampere value is the truncating quotient of [2 raw + d] by
    [2 d].  It differs from [raw / d] by less than one and a half units
    (by at most half a unit for a non-negative reading), it is 0 exactly
    for [-3d < 2 raw < d], and it lies between -3277 and 3277. *)
Theorem current_mA_versus_raw (b : build) (w : world) (u d : Z) :
  register_word w (INA219_REG_CURRENT (header b)) = Some u ->
  0 <= u < 2 ^ 16 ->
  ina219_currentDivider_mA (this w) = d ->
  d = 10 \/ d = 25 ->
  exists raw mA,
    returns (getCurrent_raw b) w = Ok raw
    /\ returns (getCurrent_mA b) w = Ok mA
    /\ mA = Z.quot (2 * raw + d) (2 * d)
    /\ - 3 * d < 2 * (raw - d * mA) < d
    /\ (0 <= raw -> - d <= 2 * (raw - d * mA))
    /\ (mA = 0 <-> - 3 * d < 2 * raw < d)
    /\ - 3277 <= mA <= 3277.
Proof.
  intros Hword Hu Hdiv Hd.
  exists (to_int16 u), (Z.quot (2 * to_int16 u + d) (2 * d)).
  split; [now apply raw_accessor_word|].
  split.
  { rewrite (getCurrent_mA_word b _ _ Hword Hu), Hdiv.
    rewrite scale_current_spec by assumption.
    rewrite spec_current_mA_quot by lia. reflexivity. }
  split; [reflexivity|].
  pose proof (quot_half_up (to_int16 u) d ltac:(lia)) as Hq.
  cbv zeta in Hq. destruct Hq as (Herr & Hpos & Hzero).
  repeat (split; [assumption|]).
  pose proof (to_int16_range u). lia.
Qed.

Lemma current_mA_versus_raw_witness :
  register_word quiet_world (INA219_REG_CURRENT (header due)) = Some 100
  /\ 0 <= 100 < 2 ^ 16
  /\ ina219_currentDivider_mA (this quiet_world) = 25
  /\ (25 = 10 \/ 25 = 25)
  /\ exists raw mA,
       returns (getCurrent_raw due) quiet_world = Ok raw
       /\ returns (getCurrent_mA due) quiet_world = Ok mA
       /\ mA = Z.quot (2 * raw + 25) (2 * 25)
       /\ - 3 * 25 < 2 * (raw - 25 * mA) < 25
       /\ (0 <= raw -> - 25 <= 2 * (raw - 25 * mA))
       /\ (mA = 0 <-> - 3 * 25 < 2 * raw < 25)
       /\ - 3277 <= mA <= 3277.
Proof.
  split; [reflexivity|]. split; [lia|]. split; [reflexivity|].
  split; [right; reflexivity|].
  apply (current_mA_versus_raw due quiet_world 100 25);
    [reflexivity|lia|reflexivity|right; reflexivity].
Defined.

(** X12. [getCurrent_mA] is monotone: with the same divider (10 or 25), a
    larger signed reading of the current register never gives a smaller
    milliampere value. *)
Theorem current_mA_monotone
    (b : build) (w1 w2 : world) (u1 u2 d : Z) :
  register_word w1 (INA219_REG_CURRENT (header b)) = Some u1 ->
  register_word w2 (INA219_REG_CURRENT (header b)) = Some u2 ->
  0 <= u1 < 2 ^ 16 ->
  0 <= u2 < 2 ^ 16 ->
  ina219_currentDivider_mA (this w1) = d ->
  ina219_currentDivider_mA (this w2) = d ->
  d = 10 \/ d = 25 ->
  to_int16 u1 <= to_int16 u2 ->
  exists r1 r2,
    returns (getCurrent_mA b) w1 = Ok r1
    /\ returns (getCurrent_mA b) w2 = Ok r2
    /\ r1 <= r2.
Proof.
  intros Hw1 Hw2 Hu1 Hu2 Hd1 Hd2 Hd Hle.
  exists (Z.quot (2 * to_int16 u1 + d) (2 * d)),
         (Z.quot (2 * to_int16 u2 + d) (2 * d)).
  rewrite (getCurrent_mA_word b _ _ Hw1 Hu1), Hd1.
  rewrite (getCurrent_mA_word b _ _ Hw2 Hu2), Hd2.
  rewrite !scale_current_spec by assumption.
  rewrite !spec_current_mA_quot by lia.
  split; [reflexivity|]. split; [reflexivity|].
  apply Z.quot_le_mono; lia.
Qed.

Lemma current_mA_monotone_witness :
  register_word scenario_world (INA219_REG_CURRENT (header uno)) = Some 0xFF9C
  /\ register_word scenario_world_100 (INA219_REG_CURRENT (header uno))
     = Some 100
  /\ 0 <= 0xFF9C < 2 ^ 16
  /\ 0 <= 100 < 2 ^ 16
  /\ ina219_currentDivider_mA (this scenario_world) = 10
  /\ ina219_currentDivider_mA (this scenario_world_100) = 10
  /\ (10 = 10 \/ 10 = 25)
  /\ to_int16 0xFF9C <= to_int16 100
  /\ exists r1 r2,
       returns (getCurrent_mA uno) scenario_world = Ok r1
       /\ returns (getCurrent_mA uno) scenario_world_100 = Ok r2
       /\ r1 <= r2.
Proof.
  split; [reflexivity|]. split; [reflexivity|]. split; [lia|].
  split; [lia|]. split; [reflexivity|]. split; [reflexivity|].
  split; [left; reflexivity|]. split; [vm_compute; discriminate|].
  apply (current_mA_monotone uno scenario_world scenario_world_100
           0xFF9C 100 10);
    first [reflexivity | lia | (left; reflexivity)
          | (vm_compute; discriminate)].
Defined.

(** X13. Whatever the bus answers, [getBusVoltage_raw] and
    [getBusVoltage_V] return the same value, a multiple of 4 between 0 and
    32764: the bus voltage is never reported negative. *)
Theorem bus_voltage_range (b : build) (w : world) :
  exists r w',
    getBusVoltage_raw b w = Ok (r, w')
    /\ getBusVoltage_V b w = Ok (r, w')
    /\ 0 <= r <= 32764
    /\ r mod 4 = 0.
Proof.
  destruct (wireReadRegister_effect b
              (to_uint8 (INA219_REG_BUSVOLTAGE (header b))) w)
    as [value Hread].
  pose proof (wireReadRegister_range b _ _ _ _ Hread) as Hv.
  pose proof (shiftr3_range value Hv) as Hs.
  exists (Z.shiftr value 3 * 4).
  exists (after_register_read
            (to_uint8 (INA219_REG_BUSVOLTAGE (header b))) w).
  unfold getBusVoltage_raw, getBusVoltage_V, bind. rewrite Hread.
  unfold ret. rewrite Z.shiftl_mul_pow2 by lia. change (2 ^ 2) with 4.
  rewrite promoted_small, to_int16_small by lia.
  split; [reflexivity|]. split; [reflexivity|]. split; [lia|].
  apply Z.mod_mul. lia.
Qed.

(* ===================================================================== *)
(** * One behaviour for all builds *)
(* ===================================================================== *)

Section Builds.

Variables b1 b2 : build.

Lemma wireReadRegister_builds (reg : Z) (w : world) (c : chip) :
  slaves (Wire w) !! ina219_i2caddr (this w) = Some c ->
  wireReadRegister b1 reg w = wireReadRegister b2 reg w.
Proof.
  intros Hc.
  assert (Hword : exists v, register_word w reg = Some v).
  { unfold register_word. rewrite Hc.
    destruct (chip_bytes c (to_uint8 reg)). eauto. }
  destruct Hword as [v Hword].
  destruct (wireReadRegister_effect b1 reg w) as [v1 E1].
  destruct (wireReadRegister_effect b2 reg w) as [v2 E2].
  destruct (wireReadRegister_value b1 _ _ _ Hword) as (u1 & F1 & _).
  destruct (wireReadRegister_value b2 _ _ _ Hword) as (u2 & F2 & _).
  congruence.
Qed.

Lemma read_value_builds (m : method) (w : world) (c : chip) :
  header b1 = header b2 ->
  slaves (Wire w) !! ina219_i2caddr (this w) = Some c ->
  m <> call_getCurrent_mA
  \/ ina219_currentDivider_mA (this w) = 10
  \/ ina219_currentDivider_mA (this w) = 25 ->
  read_value b1 m w = read_value b2 m w.
Proof.
  intros Hh Hc Hm.
  assert (Hread : forall reg (k1 k2 : Z -> M Z),
             (forall v u, 0 <= v < 2 ^ 16 -> this u = this w ->
                          k1 v u = k2 v u) ->
             bind (wireReadRegister b1 reg) k1 w
             = bind (wireReadRegister b2 reg) k2 w).
  { intros reg k1 k2 Hk. unfold bind.
    rewrite <- (wireReadRegister_builds reg w c Hc).
    destruct (wireReadRegister b1 reg w) as [[v u]|f] eqn:E; [|reflexivity].
    apply Hk.
    - exact (wireReadRegister_range b1 _ _ _ _ E).
    - exact (keeps_wireReadRegister b1 _ _ _ _ E). }
  destruct m; cbn [read_value]; try reflexivity;
    unfold getBusVoltage_raw, getShuntVoltage_raw, getCurrent_raw,
      getShuntVoltage_mV, getBusVoltage_V, getCurrent_mA;
    rewrite ?Hh.
  - eapply wireReadRegister_builds; eassumption.
  - apply Hread. intros v u Hv _.
    pose proof (shiftr3_range v Hv).
    rewrite !promoted_small by lia. reflexivity.
  - apply Hread. reflexivity.
  - apply Hread. reflexivity.
  - apply Hread. reflexivity.
  - apply Hread. intros v u Hv _.
    pose proof (shiftr3_range v Hv).
    rewrite Z.shiftl_mul_pow2 by lia. change (2 ^ 2) with 4.
    rewrite !promoted_small by lia. reflexivity.
  - destruct Hm as [Hm|Hd]; [congruence|].
    apply Hread. intros v u Hv Hu.
    pose proof (scale_current_spec (board b1) _ v Hd Hv) as S1.
    pose proof (scale_current_spec (board b2) _ v Hd Hv) as S2.
    unfold scale_current, add_half in S1, S2.
    unfold bind, get_this. rewrite Hu.
    destruct (fdiv (float_fmt (board b1)) _ _) as [q1|f1];
      [|discriminate].
    destruct (fdiv (float_fmt (board b2)) _ _) as [q2|f2];
      [|discriminate].
    cbn [lift]. rewrite S1, S2. reflexivity.
Qed.

End Builds.

(** X14. With a chip at the address of the driver, no call depends on the
    build: for two builds with the same header, whatever the width of
    [int], the width of [double] and the version of the Arduino core
    (that is, whichever branch of the version switch is compiled),
    [wireWriteRegister] has the same outcome and every accessor returns
    the same value and leaves the same world ([getCurrent_mA] with the
    divider 10 or 25). *)
Theorem calls_do_not_depend_on_build
    (b1 b2 : build) (m : method) (reg value : Z) (w : world) (c : chip) :
  header b1 = header b2 ->
  slaves (Wire w) !! ina219_i2caddr (this w) = Some c ->
  m <> call_getCurrent_mA
  \/ ina219_currentDivider_mA (this w) = 10
  \/ ina219_currentDivider_mA (this w) = 25 ->
  wireWriteRegister b1 reg value w = wireWriteRegister b2 reg value w
  /\ read_value b1 m w = read_value b2 m w.
Proof.
  intros Hh Hc Hm. split.
  - rewrite !wireWriteRegister_effect. reflexivity.
  - eapply read_value_builds; eassumption.
Qed.

Lemma calls_do_not_depend_on_build_witness :
  header uno_0022 = header due
  /\ slaves (Wire scenario_world) !! ina219_i2caddr (this scenario_world)
     = Some (chip_receive [0x00; 0x3C; 0x1F]
               (chip_receive [0x05; 0x10; 0x00] sample_chip))
  /\ ina219_currentDivider_mA (this scenario_world) = 10
  /\ wireWriteRegister uno_0022 0x05 0xABCD scenario_world
     = wireWriteRegister due 0x05 0xABCD scenario_world
  /\ read_value uno_0022 call_getCurrent_mA scenario_world
     = read_value due call_getCurrent_mA scenario_world.
Proof.
  split; [reflexivity|]. split; [vm_compute; reflexivity|].
  split; [reflexivity|].
  apply (calls_do_not_depend_on_build uno_0022 due call_getCurrent_mA
           0x05 0xABCD scenario_world
           (chip_receive [0x00; 0x3C; 0x1F]
              (chip_receive [0x05; 0x10; 0x00] sample_chip)));
    [reflexivity|vm_compute; reflexivity|right; left; reflexivity].
Defined.

(* ===================================================================== *)
(** * No chip on the bus *)
(* ===================================================================== *)

Lemma nothing_received_value (b : build) :
  nothing_received b = if 100 <=? ARDUINO_version b then 0xFEFF else 0.
Proof.
  unfold nothing_received.
  destruct (100 <=? ARDUINO_version b), (board b); reflexivity.
Qed.

(** X15. A missing chip goes unnoticed.  With no slave at the address of
    the driver, a register write changes no register store and a register
    read still returns: it assembles the value from what [Wire.read()]
    (-1) or [Wire.receive()] (0) give when nothing was received, that is
    0xFEFF with Arduino 1.0 and later and 0 before.  [getBusVoltage_raw]
    then reports 32636 or 0. *)
Theorem missing_chip_unnoticed (b : build) (reg value : Z) (w : world) :
  slaves (Wire w) !! ina219_i2caddr (this w) = None ->
  (exists w1, wireWriteRegister b reg value w = Ok (tt, w1)
              /\ slaves (Wire w1) = slaves (Wire w))
  /\ returns (wireReadRegister b reg) w
     = Ok (if 100 <=? ARDUINO_version b then 0xFEFF else 0)
  /\ returns (getBusVoltage_raw b) w
     = Ok (if 100 <=? ARDUINO_version b then 32636 else 0).
Proof.
  intros Hc. split; [|split].
  - eexists. split; [apply wireWriteRegister_effect|].
    cbn [after_register_write Wire slaves]. unfold deliver.
    rewrite Hc. reflexivity.
  - rewrite wireReadRegister_absent by assumption.
    rewrite nothing_received_value. reflexivity.
  - pose proof (wireReadRegister_absent b
                  (to_uint8 (INA219_REG_BUSVOLTAGE (header b))) w Hc) as E.
    rewrite nothing_received_value in E.
    unfold returns in E |- *. unfold getBusVoltage_raw, bind.
    destruct (wireReadRegister b _ w) as [[v u]|f]; [|discriminate].
    injection E as ->. unfold ret.
    destruct (100 <=? ARDUINO_version b), (board b); reflexivity.
Qed.

Lemma missing_chip_unnoticed_witness :
  slaves (Wire {| Wire := sample_bus; this := INA219_INA219 0x41 |})
    !! ina219_i2caddr (INA219_INA219 0x41) = None
  /\ returns (wireReadRegister uno 0x02)
       {| Wire := sample_bus; this := INA219_INA219 0x41 |}
     = Ok 0xFEFF
  /\ returns (getBusVoltage_raw uno)
       {| Wire := sample_bus; this := INA219_INA219 0x41 |}
     = Ok 32636.
Proof.
  split; [reflexivity|].
  apply (missing_chip_unnoticed uno 0x02 0
           {| Wire := sample_bus; this := INA219_INA219 0x41 |}).
  reflexivity.
Defined.
